(** * Dronetic: the quantum oscillator bank and the drone mixer

    A shallow embedding of [Dronetic.ino] (ArduTouch): the
    [DroneOscSection] class (edge computation, note selection, phase
    lock, sample generation) and the play-state, fade and mixing code of
    [DroneSynth].  Machine integers are modelled as [Z] with the AVR
    widths written out: [byte] is 8 bits unsigned, [word] 16 bits
    unsigned, [char] 8 bits signed and [int] 16 bits signed. *)

From Stdlib Require Import ZArith Lia.
From stdpp Require Import base numbers list.

Local Open Scope Z_scope.

(** ** Machine integers of the target *)

Module Avr.

Definition to_byte (x : Z) : Z := x mod 256.
Definition to_word (x : Z) : Z := x mod 65536.
Definition to_char (x : Z) : Z := (x + 128) mod 256 - 128.
Definition to_int  (x : Z) : Z := (x + 32768) mod 65536 - 32768.

Definition is_byte (x : Z) : Prop := 0 <= x <= 255.
Definition is_word (x : Z) : Prop := 0 <= x <= 65535.
Definition is_char (x : Z) : Prop := -128 <= x <= 127.

(** Modelled from the spec: the [Word] union of the ArduTouch library
    (a 16-bit [val] overlaid with the byte pair [_.lsb], [_.msb]) is not
    part of the sketch; the spec reads [posSteps._.msb] as the high byte
    of the 16-bit product, so [lsb] is the low byte. *)
Definition Word_msb (val : Z) : Z := Z.shiftr val 8.
Definition Word_lsb (val : Z) : Z := Z.land val 255.

End Avr.

Import Avr.

(** ** The note period table *)

(** [NotePeriods]: the pre-calculated oscillator periods, four octaves of
    twelve notes. *)
Definition NotePeriods : list Z :=
  [ 360; 346; 320; 300; 288; 270; 256; 240; 225; 214; 200; 192;
    180; 173; 160; 150; 144; 135; 128; 120; 113; 107; 100; 96;
    90; 86; 80; 75; 72; 67; 64; 60; 56; 54; 50; 48;
    45; 43; 40; 38; 36; 34; 32; 30; 28; 27; 25; 24 ].

(** [#define MAX_OSC 4] *)
Definition MAX_OSC : nat := 4.

(** ** DroneOscSection *)

Module Osc.

(** The data members of [DroneOscSection]. The two-element rows of
    [edgLen] and [edgVal] are pairs; [edge] selects a row element by an
    edge index, which the code only ever sets to 0 or 1. *)
Record DroneOscSection : Type := mkOsc {
  periods  : Z;            (* ptr to table of note periods in ROM *)
  numNotes : Z;            (* # of notes in periods[] *)
  numOsc   : Z;            (* number of square-wave osc in section *)
  curOsc   : Z;            (* current osc # *)
  ampOsc   : Z;            (* amplitude of oscillators *)
  edgIdx   : list Z;       (* index into current edge *)
  edgeDC   : list Z;       (* downcounter to next edge transition *)
  edgLen   : list (Z * Z); (* edge lengths *)
  edgVal   : list (Z * Z); (* edge values *)
  note     : list Z;       (* current note *)
  pW       : Z;            (* pulse width: 1 to 128 (128=50%) *)
  freeze   : bool          (* if true freeze current notes *)
}.

(** [const byte NoNote = 255] *)
Definition NoNote : Z := 255.

Definition edge (row : Z * Z) (idx : Z) : Z :=
  if idx =? 0 then fst row else snd row.

Definition set_numOsc (s : DroneOscSection) (v : Z) : DroneOscSection :=
  mkOsc (periods s) (numNotes s) v (curOsc s) (ampOsc s)
        (edgIdx s) (edgeDC s) (edgLen s) (edgVal s) (note s) (pW s) (freeze s).

Definition set_curOsc (s : DroneOscSection) (v : Z) : DroneOscSection :=
  mkOsc (periods s) (numNotes s) (numOsc s) v (ampOsc s)
        (edgIdx s) (edgeDC s) (edgLen s) (edgVal s) (note s) (pW s) (freeze s).

Definition set_ampOsc (s : DroneOscSection) (v : Z) : DroneOscSection :=
  mkOsc (periods s) (numNotes s) (numOsc s) (curOsc s) v
        (edgIdx s) (edgeDC s) (edgLen s) (edgVal s) (note s) (pW s) (freeze s).

Definition set_edgIdx (s : DroneOscSection) (v : list Z) : DroneOscSection :=
  mkOsc (periods s) (numNotes s) (numOsc s) (curOsc s) (ampOsc s)
        v (edgeDC s) (edgLen s) (edgVal s) (note s) (pW s) (freeze s).

Definition set_edgeDC (s : DroneOscSection) (v : list Z) : DroneOscSection :=
  mkOsc (periods s) (numNotes s) (numOsc s) (curOsc s) (ampOsc s)
        (edgIdx s) v (edgLen s) (edgVal s) (note s) (pW s) (freeze s).

Definition set_edgLen (s : DroneOscSection) (v : list (Z * Z)) : DroneOscSection :=
  mkOsc (periods s) (numNotes s) (numOsc s) (curOsc s) (ampOsc s)
        (edgIdx s) (edgeDC s) v (edgVal s) (note s) (pW s) (freeze s).

Definition set_edgVal (s : DroneOscSection) (v : list (Z * Z)) : DroneOscSection :=
  mkOsc (periods s) (numNotes s) (numOsc s) (curOsc s) (ampOsc s)
        (edgIdx s) (edgeDC s) (edgLen s) v (note s) (pW s) (freeze s).

Definition set_note (s : DroneOscSection) (v : list Z) : DroneOscSection :=
  mkOsc (periods s) (numNotes s) (numOsc s) (curOsc s) (ampOsc s)
        (edgIdx s) (edgeDC s) (edgLen s) (edgVal s) v (pW s) (freeze s).

Definition set_pW (s : DroneOscSection) (v : Z) : DroneOscSection :=
  mkOsc (periods s) (numNotes s) (numOsc s) (curOsc s) (ampOsc s)
        (edgIdx s) (edgeDC s) (edgLen s) (edgVal s) (note s) v (freeze s).

Definition set_freeze (s : DroneOscSection) (v : bool) : DroneOscSection :=
  mkOsc (periods s) (numNotes s) (numOsc s) (curOsc s) (ampOsc s)
        (edgIdx s) (edgeDC s) (edgLen s) (edgVal s) (note s) (pW s) v.

(** The slots a [for ( byte i = 0; i < n; i++ )] loop visits. *)
Definition slots (n : Z) : list nat := seq 0 (Z.to_nat n).

(** The length of a slot's period, [edgLen[t][0] + edgLen[t][1]]. *)
Definition period_of (s : DroneOscSection) (t : nat) : Z :=
  fst (edgLen s !!! t) + snd (edgLen s !!! t).

(** [setSteps( t, n0, n1 )]: store the two edge lengths of slot [t]; the
    low edge gets the negated amplitude only when both lengths are
    nonzero. *)
Definition setSteps (s : DroneOscSection) (t : nat) (n0 n1 : Z) : DroneOscSection :=
  let s1 := set_edgLen s (<[t := (n0, n1)]> (edgLen s)) in
  let v1 := if negb (n0 =? 0) && negb (n1 =? 0)
            then to_char (- ampOsc s) else to_char (ampOsc s) in
  set_edgVal s1 (<[t := (fst (edgVal s1 !!! t), v1)]> (edgVal s1)).

(** The arithmetic of [calcEdges] on its two [Word] locals: from the
    pulse width and the period to the bytes [posSteps._.lsb] and
    [negSteps._.lsb] handed to [setSteps]. *)
Definition calcSteps (pW period : Z) : Z * Z :=
  let posSteps := period in
  let posSteps := to_word (posSteps * pW) in
  let posSteps := Word_msb posSteps in
  let posSteps := if posSteps =? 0 then 1 else posSteps in
  let negSteps := to_word (period - posSteps) in
  let '(posSteps, negSteps) :=
    if 255 <? negSteps
    then (to_word (posSteps + (negSteps - 255)), 255)
    else (posSteps, negSteps) in
  (Word_lsb posSteps, Word_lsb negSteps).

(** [calcEdges( t, period )]. The branch for [period <= 1] stores zero
    steps and then falls through to the general computation: the source
    has no [return] there. *)
Definition calcEdges (s : DroneOscSection) (t : nat) (period : Z) : DroneOscSection :=
  let s0 := if period <=? 1 then setSteps s t 0 0 else s in
  let steps := calcSteps (pW s0) period in
  setSteps s0 t (fst steps) (snd steps).

(** The loop [while ( noteNum >= numNotes ) noteNum -= 12] on a byte.
    [fuel] bounds the number of iterations; [None] means the bound was
    reached with the loop still running. *)
Fixpoint wrapNote (fuel : nat) (numNotes noteNum : Z) : option Z :=
  if noteNum <? numNotes then Some noteNum
  else match fuel with
       | O => None
       | S fuel' => wrapNote fuel' numNotes (to_byte (noteNum - 12))
       end.

(** One round of the phase-lock loop of [setNote]. *)
Definition phaseLock (t : nat) (s : DroneOscSection) (i : nat) : DroneOscSection :=
  if decide (t = i) then s
  else if negb (note s !!! t =? note s !!! i) then s
  else
    let s1 := set_edgIdx s (<[t := edgIdx s !!! i]> (edgIdx s)) in
    set_edgeDC s1 (<[t := edgeDC s1 !!! i]> (edgeDC s1)).

(** [pgm_read_word_near( addr )] over a byte-addressed flash image: the
    AVR stores a word low byte first. *)
Definition pgm_read_word_near (flash : Z -> Z) (addr : Z) : Z :=
  flash addr + 256 * flash (addr + 1).

(** [setNote( t, noteNum )]. *)
Definition setNote (flash : Z -> Z) (fuel : nat)
    (s : DroneOscSection) (t : nat) (noteNum : Z) : option DroneOscSection :=
  if freeze s then Some s
  else if noteNum =? NoNote then
    let s1 := set_edgIdx s (<[t := 0]> (edgIdx s)) in
    let s2 := setSteps s1 t 0 0 in
    Some (set_note s2 (<[t := NoNote]> (note s2)))
  else
    match wrapNote fuel (numNotes s) noteNum with
    | None => None
    | Some noteNum =>
        let s1 := set_note s (<[t := noteNum]> (note s)) in
        let idx := to_byte (Z.shiftl noteNum 1) in
        let elePtr := to_word (periods s1 + idx) in
        let s2 := calcEdges s1 t (pgm_read_word_near flash elePtr) in
        Some (fold_left (phaseLock t) (slots (numOsc s2)) s2)
    end.

(** One round of the amplitude loop of [setNumOsc]. *)
Definition setAmp (s : DroneOscSection) (i : nat) : DroneOscSection :=
  let s1 := set_edgVal s (<[i := (to_char (ampOsc s), snd (edgVal s !!! i))]> (edgVal s)) in
  let v1 := if negb (fst (edgLen s1 !!! i) =? 0) && negb (snd (edgLen s1 !!! i) =? 0)
            then to_char (- ampOsc s1) else to_char (ampOsc s1) in
  set_edgVal s1 (<[i := (fst (edgVal s1 !!! i), v1)]> (edgVal s1)).

(** [setNumOsc( n )]. *)
Definition setNumOsc (s : DroneOscSection) (n : Z) : DroneOscSection :=
  let n := if n =? 0 then 1 else n in
  let n := if Z.of_nat MAX_OSC <? n then Z.of_nat MAX_OSC else n in
  let s1 := set_numOsc s n in
  let s2 := if numOsc s1 <=? curOsc s1
            then set_curOsc s1 (to_byte (numOsc s1 - 1)) else s1 in
  let s3 := set_ampOsc s2 (127 / numOsc s2) in
  fold_left setAmp (slots (numOsc s3)) s3.

(** The loop [while ( phase >= period ) phase -= period] on a word, with
    the same fuel convention as [wrapNote]. *)
Fixpoint normPhase (fuel : nat) (period phase : Z) : option Z :=
  if phase <? period then Some phase
  else match fuel with
       | O => None
       | S fuel' => normPhase fuel' period (to_word (phase - period))
       end.

(** [setPhase( t, phase )]. *)
Definition setPhase (fuel : nat) (s : DroneOscSection) (t : nat) (phase : Z)
    : option DroneOscSection :=
  let period := to_word (fst (edgLen s !!! t) + snd (edgLen s !!! t)) in
  match normPhase fuel period phase with
  | None => None
  | Some phase =>
      if phase <? fst (edgLen s !!! t) then
        let s1 := set_edgIdx s (<[t := 0]> (edgIdx s)) in
        Some (set_edgeDC s1 (<[t := to_byte (fst (edgLen s1 !!! t) - phase)]> (edgeDC s1)))
      else
        let s1 := set_edgIdx s (<[t := 1]> (edgIdx s)) in
        Some (set_edgeDC s1 (<[t := to_byte (period - phase)]> (edgeDC s1)))
  end.

(** [setPW( x )]. *)
Definition setPW (s : DroneOscSection) (x : Z) : DroneOscSection :=
  let x := if x <? 1 then 1 else x in
  let x := if 128 <? x then 128 else x in
  let s1 := set_pW s x in
  fold_left
    (fun s i => calcEdges s i (to_word (fst (edgLen s !!! i) + snd (edgLen s !!! i))))
    (slots (numOsc s1)) s1.

(** The edge state machine of one slot, as run once per sample by
    [output]: count down, and on zero toggle the edge and reload. *)
Definition edgeStep (s : DroneOscSection) (t : nat) : DroneOscSection :=
  let s1 := set_edgeDC s (<[t := to_byte (edgeDC s !!! t - 1)]> (edgeDC s)) in
  if edgeDC s1 !!! t =? 0 then
    let s2 := set_edgIdx s1 (<[t := Z.lxor (edgIdx s1 !!! t) 1]> (edgIdx s1)) in
    set_edgeDC s2 (<[t := edge (edgLen s2 !!! t) (edgIdx s2 !!! t)]> (edgeDC s2))
  else s1.

(** What slot [t] adds to the current sample, [edgVal[t][edgIdx[t]]]. *)
Definition contribution (s : DroneOscSection) (t : nat) : Z :=
  edge (edgVal s !!! t) (edgIdx s !!! t).

(** The body of the inner [for] loop of [output]. *)
Definition oscStep (acc : DroneOscSection * Z) (t : nat) : DroneOscSection * Z :=
  let s' := edgeStep (fst acc) t in
  (s', to_char (snd acc + contribution s' t)).

(** One tick of [output]: the new state and the sample [outVal]. *)
Definition tick (s : DroneOscSection) : DroneOscSection * Z :=
  fold_left oscStep (slots (numOsc s)) (s, 0).

(** [output( buf )], writing [icnt] ticks of output. *)
Fixpoint output (icnt : nat) (s : DroneOscSection) : DroneOscSection * list Z :=
  match icnt with
  | O => (s, [])
  | S icnt' =>
      let '(s1, outVal) := tick s in
      let '(s2, buf) := output icnt' s1 in
      (s2, outVal :: buf)
  end.

(** The state after [n] ticks. *)
Fixpoint ticks (n : nat) (s : DroneOscSection) : DroneOscSection :=
  match n with
  | O => s
  | S n' => ticks n' (fst (tick s))
  end.

(** The [case '!'] of [charEv], without the superclass reset, which
    touches none of the members modelled here. *)
Definition charEv_reset (flash : Z -> Z) (s : DroneOscSection) : option DroneOscSection :=
  let s1 := set_freeze s false in
  let s2 := set_pW s1 128 in
  let s3 := setNumOsc s2 1 in
  fold_left (fun o i => match o with
                        | Some s => setNote flash 0 s i NoNote
                        | None => None
                        end)
            (slots (Z.of_nat MAX_OSC)) (Some s3).

(** A flash image with the period table at byte address [base]. *)
Definition flashImage (base : Z) (addr : Z) : Z :=
  let off := addr - base in
  if (0 <=? off) && (off <? 2 * Z.of_nat (length NotePeriods)) then
    let w := NotePeriods !!! Z.to_nat (off / 2) in
    if Z.even off then Word_lsb w else Word_msb w
  else 0.

(** The constructor: [periods = &NotePeriods[0]; numNotes = 48]. The
    other members are whatever the allocator left there; [mem] supplies
    them. *)
Definition construct (base : Z) (mem : DroneOscSection) : DroneOscSection :=
  mkOsc base 48 (numOsc mem) (curOsc mem) (ampOsc mem)
        (edgIdx mem) (edgeDC mem) (edgLen mem) (edgVal mem) (note mem)
        (pW mem) (freeze mem).

(** A memory of zeros, for concrete runs. *)
Definition zeroMem : DroneOscSection :=
  mkOsc 0 0 0 0 0 [0; 0; 0; 0] [0; 0; 0; 0]
        [(0, 0); (0, 0); (0, 0); (0, 0)] [(0, 0); (0, 0); (0, 0); (0, 0)]
        [0; 0; 0; 0] 0 false.

(** The section after the constructor and a reset, from a memory of
    zeros and with the table at address 0. *)
Definition powerOn : DroneOscSection :=
  default zeroMem (charEv_reset (flashImage 0) (construct 0 zeroMem)).

(** The arrays are declared with [MAX_OSC] entries each. *)
Definition sized (s : DroneOscSection) : Prop :=
  length (edgIdx s) = MAX_OSC /\ length (edgeDC s) = MAX_OSC /\
  length (edgLen s) = MAX_OSC /\ length (edgVal s) = MAX_OSC /\
  length (note s) = MAX_OSC.

(** The flash holds the period table at [base], within the near (64K)
    address space. *)
Definition tableAt (flash : Z -> Z) (base : Z) : Prop :=
  0 <= base /\ base + 2 * Z.of_nat (length NotePeriods) <= 65536 /\
  forall i : nat, (i < length NotePeriods)%nat ->
    pgm_read_word_near flash (base + 2 * Z.of_nat i) = NotePeriods !!! i.

(** Everything but the edge lengths and values of a section. *)
Definition frame (s : DroneOscSection) :=
  (periods s, numNotes s, numOsc s, curOsc s, ampOsc s,
   edgIdx s, edgeDC s, note s, pW s, freeze s).

(** Everything but the edge index and countdown of a section. *)
Definition lockFrame (s : DroneOscSection) :=
  (periods s, numNotes s, numOsc s, curOsc s, ampOsc s,
   edgLen s, edgVal s, note s, pW s, freeze s).

(** The edge state of a slot: its edge index and its countdown. *)
Definition phase (s : DroneOscSection) (t : nat) : Z * Z :=
  (edgIdx s !!! t, edgeDC s !!! t).

(** An edge index is 0 or 1. *)
Definition binary (idx : Z) : Prop := idx = 0 \/ idx = 1.

(** The sample as the sum, in a [char], of what the active slots
    contribute in state [s]. *)
Definition outValOf (s : DroneOscSection) : Z :=
  fold_left (fun acc t => to_char (acc + contribution s t)) (slots (numOsc s)) 0.

(** The active slots other than [a] that sound note [m] all have the
    same edge state. *)
Definition unisonAgree (s : DroneOscSection) (a : nat) (m : Z) : Prop :=
  forall c d : nat,
    c <> a -> d <> a -> Z.of_nat c < numOsc s -> Z.of_nat d < numOsc s ->
    note s !!! c = m -> note s !!! d = m -> phase s c = phase s d.

(** Three oscillators, of which slots 1 and 2 sound note 5, ten samples
    apart: the state after the console commands [N3 1n5 2n5 1p10] on the
    section just reset. *)
Definition unisonSplit : option DroneOscSection :=
  s1 ← setNote (flashImage 0) 18 (setNumOsc powerOn 3) 1 5;
  s2 ← setNote (flashImage 0) 18 s1 2 5;
  setPhase 1 s2 1 10.

(** One oscillator, on note 3 and ten samples into its period: the state
    after the console commands [0n3 p10] on the section just reset.
    Slot 1 is not active. *)
Definition soloShifted : option DroneOscSection :=
  s1 ← setNote (flashImage 0) 18 powerOn 0 3;
  setPhase 1 s1 0 10.

(** Slot [t] put at the start of its high edge, and the state [n]
    samples later, by the edge state machine of [output]. *)
Definition edgeStart (s : DroneOscSection) (t : nat) : DroneOscSection :=
  let s1 := set_edgIdx s (<[t := 0]> (edgIdx s)) in
  set_edgeDC s1 (<[t := fst (edgLen s1 !!! t)]> (edgeDC s1)).

Definition samplesFrom (n : nat) (s : DroneOscSection) (t : nat) : DroneOscSection :=
  Nat.iter n (fun s => edgeStep s t) (edgeStart s t).

(** The section just reset with slot 0 set to note 0, of period 360. *)
Definition lowestNote : DroneOscSection :=
  default powerOn (setNote (flashImage 0) 18 powerOn 0 0).

(** The spec's wording of the wrap, for comparison with [wrapNote]: the
    note index reduced by whole octaves until it is in the table range. *)
Definition octaveReduce (n : Z) : Z :=
  if n <? 48 then n else 36 + n mod 12.

(** [setCurOsc( ith )]. *)
Definition setCurOsc (s : DroneOscSection) (ith : Z) : DroneOscSection :=
  let ith := if numOsc s <=? ith then to_byte (numOsc s - 1) else ith in
  set_curOsc s ith.

(** [getPhase( t )]. *)
Definition getPhase (s : DroneOscSection) (t : nat) : Z :=
  let phase := if negb (edgIdx s !!! t =? 0) then 0 else fst (edgLen s !!! t) in
  to_word (phase + (edge (edgLen s !!! t) (edgIdx s !!! t) - edgeDC s !!! t)).

(** The pulse-width case of [DroneSynth::handlePots], on the oscillator
    section of the drone the pot belongs to: [potVal >>= 1] and then
    [setPW( potVal )]. *)
Definition potPulseWidth (s : DroneOscSection) (potVal : Z) : DroneOscSection :=
  setPW s (to_byte (Z.shiftr potVal 1)).

(** The console cases of [charEv] and the sample tick, with the values
    the console read as arguments: ['0'..'3'], ['n'], ['p'], ['N'], ['P'],
    ['!'] and one tick of [output]. The values land in [byte] variables,
    but for the phase, an [int] passed on as a [word] when it is not
    negative. *)
Inductive command : Type :=
| CmdCurOsc (ith : Z)
| CmdNote (inp : Z)
| CmdPhase (inp : Z)
| CmdNumOsc (inp : Z)
| CmdPW (inp : Z)
| CmdReset
| CmdTick.

Definition charEv (flash : Z -> Z) (fuel : nat)
    (s : DroneOscSection) (c : command) : option DroneOscSection :=
  match c with
  | CmdCurOsc ith => Some (setCurOsc s (to_byte ith))
  | CmdNote inp => setNote flash fuel s (Z.to_nat (curOsc s)) (to_byte inp)
  | CmdPhase inp =>
      if 0 <=? inp then setPhase fuel s (Z.to_nat (curOsc s)) (to_word inp)
      else Some s
  | CmdNumOsc inp => Some (setNumOsc s (to_byte inp))
  | CmdPW inp => Some (setPW s (to_byte inp))
  | CmdReset => charEv_reset flash s
  | CmdTick => Some (fst (tick s))
  end.

(** A run of commands; [None] when a loop of one of them does not end
    within the fuel. *)
Fixpoint run (flash : Z -> Z) (fuel : nat)
    (s : DroneOscSection) (cs : list command) : option DroneOscSection :=
  match cs with
  | [] => Some s
  | c :: cs' =>
      match charEv flash fuel s c with
      | Some s' => run flash fuel s' cs'
      | None => None
      end
  end.

(** The low edge value [setSteps] and [setNumOsc] choose for a pair of
    edge lengths. *)
Definition lowValue (amp : Z) (len : Z * Z) : Z :=
  if negb (fst len =? 0) && negb (snd len =? 0) then - amp else amp.

(** The amplitude invariant of the section: between 1 and [MAX_OSC]
    oscillators, the current one among them, the amplitude 127 divided by
    their number, edge lengths that are bytes, and on every active slot
    the high edge value the amplitude and the low edge value its
    negation, or the amplitude itself when an edge has length 0. *)
Definition consistent (s : DroneOscSection) : Prop :=
  sized s /\
  1 <= numOsc s <= Z.of_nat MAX_OSC /\
  0 <= curOsc s < numOsc s /\
  ampOsc s = 127 / numOsc s /\
  (forall i : nat, (i < MAX_OSC)%nat ->
     is_byte (fst (edgLen s !!! i)) /\ is_byte (snd (edgLen s !!! i))) /\
  (forall i : nat, Z.of_nat i < numOsc s ->
     edgVal s !!! i = (ampOsc s, lowValue (ampOsc s) (edgLen s !!! i))).

(** One sample of the edge state machine on an edge state, given the
    slot's edge lengths. *)
Definition edgeNext (len : Z * Z) (ph : Z * Z) : Z * Z :=
  let dc := to_byte (snd ph - 1) in
  let idx := Z.lxor (fst ph) 1 in
  if dc =? 0 then (idx, edge len idx) else (fst ph, dc).

(** An edge state in step with the slot's edge lengths: on an edge, with
    between 1 and the length of that edge samples to go. *)
Definition inStep (len : Z * Z) (ph : Z * Z) : Prop :=
  (fst ph = 0 /\ 1 <= snd ph <= fst len) \/
  (fst ph = 1 /\ 1 <= snd ph <= snd len).

(** The number of samples since the start of the high edge. *)
Definition position (len : Z * Z) (ph : Z * Z) : Z :=
  if fst ph =? 0 then fst len - snd ph else fst len + snd len - snd ph.

(** What one slot shows of a section. *)
Definition slotView (s : DroneOscSection) (j : nat) :=
  (note s !!! j, edgLen s !!! j, edgVal s !!! j, phase s j).

(** The members that are not arrays. *)
Definition scalars (s : DroneOscSection) :=
  (periods s, numNotes s, numOsc s, curOsc s, ampOsc s, pW s, freeze s).

(** [lowestNote] with slot 0 put at the start of its period by
    [setPhase( 0, 0 )]. *)
Definition startedNote : DroneOscSection :=
  default lowestNote (setPhase 1 lowestNote 0 0).

(** Two oscillators set to note 7 one after the other. *)
Definition unisonPair : DroneOscSection :=
  default powerOn
    (s1 ← setNote (flashImage 0) 18 (setNumOsc powerOn 2) 0 7;
     setNote (flashImage 0) 18 s1 1 7).

(** What slot [t] adds to the sample [output] forms in state [s]: the
    loop of [output] visits the slots below [numOsc] only. *)
Definition addend (s : DroneOscSection) (t : nat) : Z :=
  if Z.of_nat t <? numOsc s then contribution s t else 0.

(** [unisonPair] cut back to one oscillator: slot 1 keeps its edges but
    is no longer active. *)
Definition pairCut : DroneOscSection := setNumOsc unisonPair 1.

(** Four oscillators, of which slots 2 and 3 sound note 7 in phase, 50
    samples into the period: the state after the console commands
    [N4 2n7 p50 3n7] on the section just reset. Slots 0 and 1 are
    silent. *)
Definition unisonQuad : DroneOscSection :=
  default powerOn
    (s1 ← setNote (flashImage 0) 18 (setNumOsc powerOn 4) 2 7;
     s2 ← setPhase 1 s1 2 50;
     setNote (flashImage 0) 18 s2 3 7).

(** [unisonQuad] after slot 0, and then after slot 1 as well, is set to
    note 7. *)
Definition quadFirst : DroneOscSection :=
  default unisonQuad (setNote (flashImage 0) 18 unisonQuad 0 7).

Definition quadBoth : DroneOscSection :=
  default quadFirst (setNote (flashImage 0) 18 quadFirst 1 7).

(** The sum of a list of integers. *)
Definition sumZ (l : list Z) : Z := foldr Z.add 0 l.

End Osc.

(** ** DroneSynth *)

Module Synth.

(** [enum { STOPPED, FADE_IN, PLAYING, FADE_OUT } playStatus] *)
Inductive playState : Type := STOPPED | FADE_IN | PLAYING | FADE_OUT.

(** The superclass [TwoVoxPanSynth] is library code: its state is a type
    [B], and the two methods the sketch calls on it are the operations of
    this interface. *)
Class TwoVoxPanSynth (B : Type) : Type := {
  super_dynamics : B -> B;
  super_setVol : Z -> B -> B
}.

Record DroneSynth (B : Type) : Type := mkSynth {
  playStatus : playState;   (* current play status *)
  vol : Z;                  (* the volume, a byte *)
  super : B
}.
Arguments mkSynth {B} _ _ _.
Arguments playStatus {B} _.
Arguments vol {B} _.
Arguments super {B} _.

Definition set_playStatus {B} (s : DroneSynth B) (p : playState) : DroneSynth B :=
  mkSynth p (vol s) (super s).

(** Modelled from the spec: [setVol] and the member [vol] belong to the
    library superclass, which is not part of the sketch; the spec has the
    volume go up or down by one per tick, so [setVol( x )] stores the byte
    [x] in [vol], and lets the superclass do its own part. *)
Definition setVol {B} `{TwoVoxPanSynth B} (s : DroneSynth B) (x : Z) : DroneSynth B :=
  mkSynth (playStatus s) (to_byte x) (super_setVol (to_byte x) (super s)).

(** [dynamics()] *)
Definition dynamics {B} `{TwoVoxPanSynth B} (s : DroneSynth B) : DroneSynth B :=
  let s1 :=
    match playStatus s with
    | FADE_IN =>
        if vol s =? 255 then set_playStatus s PLAYING else setVol s (vol s + 1)
    | FADE_OUT =>
        if vol s =? 0 then set_playStatus s STOPPED else setVol s (vol s - 1)
    | _ => s
    end in
  mkSynth (playStatus s1) (vol s1) (super_dynamics (super s1)).

(** [start()] *)
Definition start {B} (s : DroneSynth B) : DroneSynth B :=
  match playStatus s with
  | PLAYING => s
  | _ => set_playStatus s FADE_IN
  end.

(** [stop()] *)
Definition stop {B} (s : DroneSynth B) : DroneSynth B :=
  match playStatus s with
  | STOPPED => s
  | _ => set_playStatus s FADE_OUT
  end.

(** The four statements that mix one channel sample with the lead
    sample, in the 16-bit [int sum]. *)
Definition mix (chan lead : Z) : Z :=
  let sum := to_int chan in
  let sum := to_int (sum * 3) in
  let sum := to_int (sum + lead) in
  to_char (Z.shiftr sum 2).

(** The body of the mixing loop of [output]. *)
Definition mixStep (leadbuf : list Z) (bufs : list Z * list Z) (i : nat)
    : list Z * list Z :=
  let bufL := <[i := mix (fst bufs !!! i) (leadbuf !!! i)]> (fst bufs) in
  let bufR := <[i := mix (snd bufs !!! i) (leadbuf !!! i)]> (snd bufs) in
  (bufL, bufR).

(** [output( bufL, bufR )], given the two buffers as the superclass
    filled them and the lead buffer as the lead voice filled it. *)
Definition output (audioBufSz : nat) (bufs : list Z * list Z) (leadbuf : list Z)
    : list Z * list Z :=
  fold_left (mixStep leadbuf) (seq 0 audioBufSz) bufs.

(** [n] calls of [dynamics()]. *)
Fixpoint dynamicsN {B} `{TwoVoxPanSynth B} (n : nat) (s : DroneSynth B) : DroneSynth B :=
  match n with
  | O => s
  | S n' => dynamicsN n' (dynamics s)
  end.

(** A superclass without state, for concrete runs. *)
#[export] Instance noSuper : TwoVoxPanSynth unit := {
  super_dynamics := fun b => b;
  super_setVol := fun _ b => b
}.

(** The [BUT0_DTAP] case of [evHandler]: toggle the drone on or off. *)
Definition toggle {B} (s : DroneSynth B) : DroneSynth B :=
  match playStatus s with
  | STOPPED | FADE_OUT => start s
  | _ => stop s
  end.

(** [noteOn( note )]; what the superclass does with the note is the
    argument [super_noteOn]. *)
Definition noteOn {B} (super_noteOn : B -> B) (s : DroneSynth B) : DroneSynth B :=
  let s1 := mkSynth (playStatus s) (vol s) (super_noteOn (super s)) in
  match playStatus s1 with
  | STOPPED => start s1
  | _ => s1
  end.

(** The calls that reach the play state and the volume. *)
Inductive event : Type :=
| EvStart | EvStop | EvToggle | EvNoteOn | EvDynamics.

Definition handle {B} `{TwoVoxPanSynth B} (super_noteOn : B -> B)
    (s : DroneSynth B) (e : event) : DroneSynth B :=
  match e with
  | EvStart => start s
  | EvStop => stop s
  | EvToggle => toggle s
  | EvNoteOn => noteOn super_noteOn s
  | EvDynamics => dynamics s
  end.

(** The play state and the volume agree: a byte volume, 0 when stopped
    and 255 when playing. *)
Definition settled {B} (s : DroneSynth B) : Prop :=
  is_byte (vol s) /\
  (playStatus s = STOPPED -> vol s = 0) /\
  (playStatus s = PLAYING -> vol s = 255).

End Synth.

(** * Properties *)

(** ** Machine integers *)

Module AvrFacts.

Lemma to_byte_id x : is_byte x -> to_byte x = x.
Proof. unfold is_byte, to_byte. intros H. apply Z.mod_small. lia. Qed.

Lemma to_word_id x : is_word x -> to_word x = x.
Proof. unfold is_word, to_word. intros H. apply Z.mod_small. lia. Qed.

Lemma to_char_id x : is_char x -> to_char x = x.
Proof.
  unfold is_char, to_char. intros H.
  rewrite Z.mod_small by lia. lia.
Qed.

Lemma to_int_id x : -32768 <= x <= 32767 -> to_int x = x.
Proof.
  unfold to_int. intros H.
  rewrite Z.mod_small by lia. lia.
Qed.

Lemma to_byte_range x : is_byte (to_byte x).
Proof.
  unfold is_byte, to_byte.
  pose proof (Z.mod_pos_bound x 256). lia.
Qed.

Lemma Word_msb_div val : Word_msb val = val / 256.
Proof. unfold Word_msb. rewrite Z.shiftr_div_pow2 by lia. reflexivity. Qed.

Lemma Word_lsb_mod val : Word_lsb val = val mod 256.
Proof.
  unfold Word_lsb. change 255 with (Z.ones 8).
  rewrite Z.land_ones by lia. reflexivity.
Qed.

Lemma Word_lsb_id val : is_byte val -> Word_lsb val = val.
Proof. intros H. rewrite Word_lsb_mod. apply to_byte_id, H. Qed.

End AvrFacts.

Import AvrFacts.

(** ** Edge computation *)

Module OscFacts.

Import Osc.

(** The pulse-width split of a period that fits two byte counters. *)
Lemma calcSteps_split pw P :
  1 <= pw <= 128 -> 2 <= P <= 510 ->
  let hi := fst (calcSteps pw P) in
  let lo := snd (calcSteps pw P) in
  hi + lo = P /\ 1 <= hi <= 255 /\ 1 <= lo <= 255.
Proof.
  intros Hpw HP. unfold calcSteps.
  assert (Hprod : 0 <= P * pw <= 65280) by nia.
  rewrite (to_word_id (P * pw)) by (unfold is_word; lia).
  rewrite Word_msb_div.
  pose proof (Z.mul_div_le (P * pw) 256 ltac:(lia)) as Hq.
  assert (Hq0 : 0 <= P * pw / 256) by (apply Z.div_pos; lia).
  set (q := P * pw / 256) in *.
  assert (Hq2 : 2 * q <= P) by nia.
  destruct (Z.eqb_spec q 0) as [Hz|Hz].
  - rewrite (to_word_id (P - 1)) by (unfold is_word; lia).
    destruct (Z.ltb_spec 255 (P - 1)); cbn [fst snd].
    + rewrite (to_word_id (1 + (P - 1 - 255))) by (unfold is_word; lia).
      rewrite !Word_lsb_id by (unfold is_byte; lia). lia.
    + rewrite !Word_lsb_id by (unfold is_byte; lia). lia.
  - rewrite (to_word_id (P - q)) by (unfold is_word; lia).
    destruct (Z.ltb_spec 255 (P - q)); cbn [fst snd].
    + rewrite (to_word_id (q + (P - q - 255))) by (unfold is_word; lia).
      rewrite !Word_lsb_id by (unfold is_byte; lia). lia.
    + rewrite !Word_lsb_id by (unfold is_byte; lia). lia.
Qed.

(** *** What [setSteps] and [calcEdges] touch *)

Lemma elem_of_slots i N : i ∈ slots N <-> Z.of_nat i < N.
Proof. unfold slots. rewrite elem_of_seq. lia. Qed.

Lemma setSteps_edgLen s t n0 n1 :
  edgLen (setSteps s t n0 n1) = <[t := (n0, n1)]> (edgLen s).
Proof. reflexivity. Qed.

Lemma calcEdges_edgLen s t P :
  edgLen (calcEdges s t P) = <[t := calcSteps (pW s) P]> (edgLen s).
Proof.
  unfold calcEdges. rewrite setSteps_edgLen, <- surjective_pairing.
  destruct (P <=? 1); [|reflexivity].
  cbn. apply list_insert_insert_eq.
Qed.

Lemma setSteps_frame s t n0 n1 : frame (setSteps s t n0 n1) = frame s.
Proof. reflexivity. Qed.

Lemma calcEdges_frame s t P : frame (calcEdges s t P) = frame s.
Proof. unfold calcEdges. destruct (P <=? 1); reflexivity. Qed.

Lemma calcEdges_numOsc s t P : numOsc (calcEdges s t P) = numOsc s.
Proof. unfold calcEdges. destruct (P <=? 1); reflexivity. Qed.

Lemma calcEdges_note s t P : note (calcEdges s t P) = note s.
Proof. unfold calcEdges. destruct (P <=? 1); reflexivity. Qed.

Lemma calcEdges_pW s t P : pW (calcEdges s t P) = pW s.
Proof. unfold calcEdges. destruct (P <=? 1); reflexivity. Qed.

Lemma calcEdges_scalars s t P :
  (periods (calcEdges s t P), numNotes (calcEdges s t P),
   numOsc (calcEdges s t P), freeze (calcEdges s t P))
  = (periods s, numNotes s, numOsc s, freeze s).
Proof. unfold calcEdges. destruct (P <=? 1); reflexivity. Qed.

Lemma calcEdges_phase s t P j : phase (calcEdges s t P) j = phase s j.
Proof. unfold calcEdges. destruct (P <=? 1); reflexivity. Qed.

Lemma setSteps_sized s t n0 n1 : sized s -> sized (setSteps s t n0 n1).
Proof.
  unfold sized. cbn. rewrite !length_insert. tauto.
Qed.

Lemma calcEdges_sized s t P : sized s -> sized (calcEdges s t P).
Proof.
  intros H. unfold calcEdges.
  destruct (P <=? 1); repeat apply setSteps_sized; exact H.
Qed.

Lemma calcEdges_slot s t P :
  (t < MAX_OSC)%nat -> sized s ->
  edgLen (calcEdges s t P) !!! t = calcSteps (pW s) P.
Proof.
  intros Ht (_ & _ & Hl & _). rewrite calcEdges_edgLen.
  apply list_lookup_total_insert_eq. lia.
Qed.

Lemma calcEdges_other s t j P :
  t <> j -> edgLen (calcEdges s t P) !!! j = edgLen s !!! j.
Proof.
  intros Hne. rewrite calcEdges_edgLen.
  apply list_lookup_total_insert_ne, Hne.
Qed.

Lemma NotePeriods_range P : P ∈ NotePeriods -> 24 <= P <= 360.
Proof.
  revert P. apply Forall_forall.
  unfold NotePeriods. repeat (constructor; [lia|]). constructor.
Qed.

(** What the fall-through makes of the periods 0 and 1. *)
Lemma calcSteps_zero pw : calcSteps pw 0 = (1, 255).
Proof. reflexivity. Qed.

Lemma calcSteps_one pw : 0 <= pw <= 255 -> calcSteps pw 1 = (1, 0).
Proof.
  intros H. unfold calcSteps.
  rewrite Z.mul_1_l, (to_word_id pw) by (unfold is_word; lia).
  rewrite Word_msb_div, Z.div_small by lia. reflexivity.
Qed.

(** C1. For every period [P >= 2] of the note period table and every
    pulse width in 1..128, after [calcEdges( t, P )] the two edge lengths
    of slot [t] add up to [P], the low edge is at most 255 samples and the
    high edge at least 1; and the period 360 at pulse width 128 is split
    into 180 and 180. *)
Theorem calcEdges_table_period s t P :
  (t < MAX_OSC)%nat -> sized s -> 1 <= pW s <= 128 ->
  P ∈ NotePeriods -> 2 <= P ->
  let s' := calcEdges s t P in
  let highSamples := fst (edgLen s' !!! t) in
  let lowSamples := snd (edgLen s' !!! t) in
  (highSamples + lowSamples = P /\ lowSamples <= 255 /\ 1 <= highSamples) /\
  period_of s' t = P /\
  (P = 360 -> pW s = 128 -> highSamples = 180 /\ lowSamples = 180).
Proof.
  intros Ht Hs Hpw HP H2. cbv zeta. unfold period_of.
  rewrite calcEdges_slot by assumption.
  apply NotePeriods_range in HP.
  destruct (calcSteps_split (pW s) P) as (Hsum & Hhi & Hlo); [lia..|].
  cbv zeta in *. split; [lia|]. split; [lia|].
  intros -> ->. split; reflexivity.
Qed.

Lemma calcEdges_table_period_witness :
  fst (edgLen (calcEdges powerOn 0 360) !!! 0%nat) = 180 /\
  snd (edgLen (calcEdges powerOn 0 360) !!! 0%nat) = 180.
Proof.
  assert (Hin : 360 ∈ NotePeriods) by (apply list_elem_of_here).
  assert (Hsz : sized powerOn) by (repeat split).
  assert (Ht : (0 < MAX_OSC)%nat) by (unfold MAX_OSC; lia).
  assert (Hpw : 1 <= pW powerOn <= 128) by (vm_compute; split; discriminate).
  assert (H2 : 2 <= 360) by lia.
  exact (proj2 (proj2 (calcEdges_table_period powerOn 0 360 Ht Hsz Hpw Hin H2))
           eq_refl eq_refl).
Defined.

(** C2. The code does not keep a slot without a period silent. With
    period 0, [calcEdges] stores the zero steps and then, for want of a
    [return], goes on to store the edge lengths 1 and 255; with period 1
    it stores 1 and 0. So [setPW] on the silent slot of a section just
    reset leaves an oscillator of period 256. *)
Theorem calcEdges_no_period_not_silent :
  edgLen powerOn !!! 0%nat = (0, 0) /\
  edgLen (calcEdges powerOn 0 0) !!! 0%nat = (1, 255) /\
  edgLen (calcEdges powerOn 0 1) !!! 0%nat = (1, 0) /\
  edgLen (setPW powerOn 64) !!! 0%nat = (1, 255) /\
  edgVal (setPW powerOn 64) !!! 0%nat = (127, -127).
Proof. vm_compute. repeat split. Qed.

(** The loop of [setPW]: every visited slot gets the split of its own
    period, the others keep their edges. *)
Lemma setPW_loop l s :
  NoDup l -> (forall i, i ∈ l -> (i < MAX_OSC)%nat) -> sized s ->
  let s' := fold_left
    (fun s i => calcEdges s i (to_word (fst (edgLen s !!! i) + snd (edgLen s !!! i))))
    l s in
  sized s' /\ pW s' = pW s /\ numOsc s' = numOsc s /\
  forall i, edgLen s' !!! i =
            if decide (i ∈ l) then calcSteps (pW s) (to_word (period_of s i))
            else edgLen s !!! i.
Proof.
  intros Hnd Hin Hs. induction l as [|j l IH] using rev_ind; cbv zeta.
  - cbn. split; [exact Hs|]. split; [reflexivity|]. split; [reflexivity|].
    intros i. destruct (decide _) as [Hi|_]; [inversion Hi|reflexivity].
  - apply NoDup_app in Hnd as (Hnd & Hj & _).
    rewrite fold_left_app. cbn [fold_left]. cbv zeta in IH.
    destruct IH as (Hs' & HpW & Hnum & Hlen);
      [exact Hnd|intros i Hi; apply Hin, elem_of_app; auto|].
    set (s1 := fold_left _ l s) in *.
    assert (Hjl : j ∉ l).
    { intros Hjl. apply (Hj j Hjl), list_elem_of_here. }
    assert (Hjt : (j < MAX_OSC)%nat).
    { apply Hin, elem_of_app. right. apply list_elem_of_here. }
    split; [apply calcEdges_sized, Hs'|].
    split; [rewrite calcEdges_pW; exact HpW|].
    split; [rewrite calcEdges_numOsc; exact Hnum|].
    intros i. destruct (decide (i = j)) as [->|Hij].
    + rewrite calcEdges_slot by assumption.
      rewrite (Hlen j), HpW.
      destruct (decide (j ∈ l)); [contradiction|].
      destruct (decide _) as [_|Hn]; [reflexivity|].
      exfalso. apply Hn, elem_of_app. right. apply list_elem_of_here.
    + rewrite calcEdges_other by auto. rewrite (Hlen i).
      destruct (decide (i ∈ l)) as [Hil|Hil];
        destruct (decide (i ∈ l ++ [j])) as [Hil'|Hil']; try reflexivity.
      * exfalso. apply Hil', elem_of_app. auto.
      * exfalso. apply elem_of_app in Hil' as [?|Hx]; [contradiction|].
        apply list_elem_of_singleton in Hx. contradiction.
Qed.

(** What [setPW] does keep: the clamped pulse width is stored, and every
    active slot whose period is at least 1 keeps its period. *)
Lemma setPW_sounding_period s x i :
  sized s -> numOsc s <= Z.of_nat MAX_OSC -> Z.of_nat i < numOsc s ->
  is_byte (fst (edgLen s !!! i)) -> is_byte (snd (edgLen s !!! i)) ->
  1 <= period_of s i ->
  pW (setPW s x) = Z.max 1 (Z.min 128 x) /\
  period_of (setPW s x) i = period_of s i.
Proof.
  intros Hs HN Hi H0 H1 Hp. unfold setPW. cbv zeta.
  set (pw := if 128 <? (if x <? 1 then 1 else x) then 128
             else if x <? 1 then 1 else x).
  assert (Hpw : pw = Z.max 1 (Z.min 128 x) /\ 1 <= pw <= 128).
  { unfold pw. destruct (Z.ltb_spec x 1).
    - change (128 <? 1) with false. lia.
    - destruct (Z.ltb_spec 128 x); lia. }
  destruct (setPW_loop (slots (numOsc (set_pW s pw))) (set_pW s pw))
    as (_ & HpW & _ & Hlen).
  - apply NoDup_seq.
  - intros k Hk. apply elem_of_slots in Hk. cbn in Hk. lia.
  - exact Hs.
  - cbv zeta in *. split; [rewrite HpW; apply Hpw|].
    unfold period_of at 1. rewrite (Hlen i).
    destruct (decide _) as [_|Hn]; [|exfalso; apply Hn, elem_of_slots, Hi].
    change (period_of (set_pW s pw) i) with (period_of s i).
    change (pW (set_pW s pw)) with pw.
    unfold period_of, is_byte in *.
    rewrite to_word_id by (unfold is_word; lia).
    set (P := fst (edgLen s !!! i) + snd (edgLen s !!! i)) in *.
    destruct (Z.eq_dec P 1) as [->|Hne].
    + rewrite calcSteps_one by lia. reflexivity.
    + destruct (calcSteps_split pw P) as (Hsum & _); [lia..|]. exact Hsum.
Qed.

(** C3. [setPW] does not keep the period of a silent slot: on the section
    just reset, whose slot 0 has period 0, [setPW( 64 )] stores the pulse
    width 64 and leaves slot 0 with period 256. The cause is the missing
    [return] of [calcEdges]. *)
Theorem setPW_silent_slot_period :
  Z.of_nat 0 < numOsc powerOn /\
  period_of powerOn 0 = 0 /\
  pW (setPW powerOn 64) = 64 /\
  period_of (setPW powerOn 64) 0 = 256.
Proof. vm_compute. repeat split. Qed.

(** *** Note selection *)

Lemma octaveReduce_step n :
  48 <= n -> octaveReduce (n - 12) = octaveReduce n.
Proof.
  intros H. unfold octaveReduce.
  destruct (Z.ltb_spec n 48); [lia|].
  destruct (Z.ltb_spec (n - 12) 48); Z.div_mod_to_equations; lia.
Qed.

(** The wrap loop on a table of 48 notes runs at most 18 times and ends
    on the octave-reduced index. *)
Lemma wrapNote_octaveReduce fuel n :
  0 <= n <= 255 -> n < 48 + 12 * Z.of_nat fuel ->
  wrapNote fuel 48 n = Some (octaveReduce n).
Proof.
  revert n. induction fuel as [|fuel IH]; intros n Hn Hf; cbn [wrapNote].
  - destruct (Z.ltb_spec n 48); [|lia].
    unfold octaveReduce. destruct (Z.ltb_spec n 48); [reflexivity|lia].
  - destruct (Z.ltb_spec n 48) as [Hlt|Hge].
    + unfold octaveReduce. destruct (Z.ltb_spec n 48); [reflexivity|lia].
    + rewrite (to_byte_id (n - 12)) by (unfold is_byte; lia).
      rewrite IH by lia. f_equal. apply octaveReduce_step, Hge.
Qed.

Lemma octaveReduce_range n : 0 <= n -> 0 <= octaveReduce n < 48.
Proof.
  intros H. unfold octaveReduce.
  destruct (Z.ltb_spec n 48); Z.div_mod_to_equations; lia.
Qed.

(** The reduced index is the first of [n], [n - 12], [n - 24], ... below
    the table bound. *)
Lemma octaveReduce_first n :
  0 <= n ->
  exists k, 0 <= k /\ n = octaveReduce n + 12 * k /\
            (k = 0 \/ 48 <= octaveReduce n + 12).
Proof.
  intros H. unfold octaveReduce.
  destruct (Z.ltb_spec n 48).
  - exists 0. lia.
  - exists (n / 12 - 3). Z.div_mod_to_equations. lia.
Qed.

Lemma flashImage_tableAt base :
  0 <= base -> base + 96 <= 65536 -> tableAt (flashImage base) base.
Proof.
  intros H0 H1. split; [exact H0|]. split; [exact H1|].
  intros i Hi. change (length NotePeriods) with 48%nat in Hi.
  unfold pgm_read_word_near, flashImage.
  change (length NotePeriods) with 48%nat.
  replace (base + 2 * Z.of_nat i - base) with (2 * Z.of_nat i) by lia.
  replace (base + 2 * Z.of_nat i + 1 - base) with (2 * Z.of_nat i + 1) by lia.
  destruct (Z.leb_spec 0 (2 * Z.of_nat i)); [|lia].
  destruct (Z.leb_spec 0 (2 * Z.of_nat i + 1)); [|lia].
  destruct (Z.ltb_spec (2 * Z.of_nat i) (2 * Z.of_nat 48)); [|lia].
  destruct (Z.ltb_spec (2 * Z.of_nat i + 1) (2 * Z.of_nat 48)); [|lia].
  cbn [andb].
  replace (2 * Z.of_nat i + 1) with (1 + 2 * Z.of_nat i) by lia.
  rewrite Z.even_add_mul_2, Z.even_mul. cbn [Z.even orb].
  replace (2 * Z.of_nat i / 2) with (Z.of_nat i)
    by (Z.div_mod_to_equations; lia).
  replace ((1 + 2 * Z.of_nat i) / 2) with (Z.of_nat i)
    by (Z.div_mod_to_equations; lia).
  rewrite Nat2Z.id, Word_lsb_mod, Word_msb_div.
  Z.div_mod_to_equations. lia.
Qed.

(** Reading the table entry of an index in range. *)
Lemma table_read flash base m :
  tableAt flash base -> 0 <= m < 48 ->
  pgm_read_word_near flash (to_word (base + to_byte (Z.shiftl m 1)))
  = NotePeriods !!! Z.to_nat m.
Proof.
  intros (H0 & H1 & Hrd) Hm. change (length NotePeriods) with 48%nat in *.
  rewrite Z.shiftl_mul_pow2 by lia. change (2 ^ 1) with 2.
  rewrite (to_byte_id (m * 2)) by (unfold is_byte; lia).
  rewrite to_word_id by (unfold is_word; lia).
  replace (m * 2) with (2 * Z.of_nat (Z.to_nat m)) by lia.
  apply Hrd. lia.
Qed.

Lemma lockFrame_fields s s' :
  lockFrame s' = lockFrame s ->
  edgLen s' = edgLen s /\ edgVal s' = edgVal s /\ note s' = note s /\
  numOsc s' = numOsc s /\ ampOsc s' = ampOsc s /\ pW s' = pW s /\
  freeze s' = freeze s /\ numNotes s' = numNotes s /\
  periods s' = periods s.
Proof.
  unfold lockFrame. intros H. injection H. intros. repeat split; assumption.
Qed.

(** The phase-lock loop changes the edge state of slot [t] only, to the
    edge state of some other visited slot with the same note if there is
    one. *)
Lemma phaseLock_fold t l s :
  (t < MAX_OSC)%nat -> sized s ->
  let s' := fold_left (phaseLock t) l s in
  sized s' /\ lockFrame s' = lockFrame s /\
  (forall j, j <> t -> phase s' j = phase s j) /\
  ((forall i, i ∈ l -> i <> t -> note s !!! i <> note s !!! t) /\
     phase s' t = phase s t
   \/ exists i, i ∈ l /\ i <> t /\ note s !!! i = note s !!! t /\
                phase s' t = phase s i).
Proof.
  intros Ht Hs. induction l as [|i l IH] using rev_ind; cbv zeta.
  - cbn. repeat split; try apply Hs. left. split; [|reflexivity].
    intros i Hi. inversion Hi.
  - rewrite fold_left_app. cbn [fold_left].
    cbv zeta in IH. destruct IH as (Hs' & Hfr & Hoth & Hcase).
    set (s1 := fold_left (phaseLock t) l s) in *.
    assert (Hnote : note s1 = note s) by (injection Hfr; auto).
    unfold phaseLock.
    destruct (decide (t = i)) as [->|Hne].
    { repeat split; try apply Hs'; [exact Hfr|exact Hoth|].
      destruct Hcase as [[Hno Hph]|(k & Hk & Hkt & Hkn & Hph)].
      - left. split; [|exact Hph]. intros k Hk Hkt.
        apply elem_of_app in Hk as [Hk|Hk]; [auto|].
        apply list_elem_of_singleton in Hk. congruence.
      - right. exists k. rewrite elem_of_app. auto. }
    rewrite Hnote.
    destruct (Z.eqb_spec (note s !!! t) (note s !!! i)) as [Heq|Hneq]; cbn [negb].
    + destruct Hs' as (L1 & L2 & L3 & L4 & L5).
      split; [|split; [|split]].
      * unfold sized. cbn. rewrite !length_insert. auto.
      * exact Hfr.
      * intros j Hj. unfold phase. cbn.
        rewrite !list_lookup_total_insert_ne by auto. apply Hoth, Hj.
      * right. exists i. rewrite elem_of_app, list_elem_of_singleton.
        split; [auto|]. split; [auto|]. split; [auto|].
        unfold phase. cbn.
        rewrite !list_lookup_total_insert_eq by lia.
        apply (Hoth i). auto.
    + repeat split; try apply Hs'; [exact Hfr|exact Hoth|].
      destruct Hcase as [[Hno Hph]|(k & Hk & Hkt & Hkn & Hph)].
      * left. split; [|exact Hph]. intros k Hk Hkt.
        apply elem_of_app in Hk as [Hk|Hk]; [auto|].
        apply list_elem_of_singleton in Hk. subst k. auto.
      * right. exists k. rewrite elem_of_app. auto.
Qed.

Lemma setNote_sounding flash fuel s t n m :
  freeze s = false -> n <> NoNote ->
  wrapNote fuel (numNotes s) n = Some m ->
  setNote flash fuel s t n =
  Some (fold_left (phaseLock t) (slots (numOsc s))
          (calcEdges (set_note s (<[t := m]> (note s))) t
             (pgm_read_word_near flash
                (to_word (periods s + to_byte (Z.shiftl m 1)))))).
Proof.
  intros Hf Hn Hw. unfold setNote. rewrite Hf.
  destruct (Z.eqb_spec n NoNote); [contradiction|].
  rewrite Hw. cbv zeta. rewrite calcEdges_numOsc. reflexivity.
Qed.

Lemma table_entry_range m :
  0 <= m < 48 -> 24 <= NotePeriods !!! Z.to_nat m <= 360.
Proof.
  intros Hm. apply NotePeriods_range, list_elem_of_lookup_total_2.
  change (length NotePeriods) with 48%nat. lia.
Qed.

(** C4. With [freeze] false, [setNote( t, n )] for a note [n] other than
    the sentinel ends (18 rounds of the wrap loop are enough), stores as
    the slot's note the index [n] reduced by octaves, which is the first
    of [n], [n-12], [n-24], ... below 48, and installs the table period
    found at that index: the edge lengths are those [calcEdges] computes
    from that period, and they add up to it. *)
Theorem setNote_wraps_by_octaves flash fuel s t n :
  tableAt flash (periods s) -> numNotes s = 48 -> freeze s = false ->
  (t < MAX_OSC)%nat -> sized s ->
  0 <= n <= 255 -> n <> NoNote -> (18 <= fuel)%nat ->
  let m := octaveReduce n in
  let P := NotePeriods !!! Z.to_nat m in
  wrapNote fuel (numNotes s) n = Some m /\
  0 <= m < 48 /\
  (exists k, 0 <= k /\ n = m + 12 * k /\ (k = 0 \/ 48 <= m + 12)) /\
  exists s',
    setNote flash fuel s t n = Some s' /\
    note s' !!! t = m /\
    edgLen s' = edgLen (calcEdges s t P) /\
    edgLen s' !!! t = calcSteps (pW s) P /\
    (1 <= pW s <= 128 -> period_of s' t = P).
Proof.
  intros Htab Hnn Hfz Ht Hs Hn Hno Hfuel. cbv zeta.
  assert (Hw : wrapNote fuel (numNotes s) n = Some (octaveReduce n)).
  { rewrite Hnn. apply wrapNote_octaveReduce; lia. }
  pose proof (octaveReduce_range n ltac:(lia)) as Hm.
  split; [exact Hw|]. split; [exact Hm|].
  split; [apply octaveReduce_first; lia|].
  eexists. split; [apply setNote_sounding; eassumption|].
  rewrite (table_read flash (periods s) _ Htab Hm).
  set (m := octaveReduce n) in *.
  set (s1 := set_note s (<[t := m]> (note s))).
  assert (Hs1 : sized s1).
  { destruct Hs as (L1 & L2 & L3 & L4 & L5). unfold sized, s1. cbn.
    rewrite length_insert. auto. }
  pose proof (calcEdges_sized s1 t (NotePeriods !!! Z.to_nat m) Hs1) as Hs2.
  destruct (phaseLock_fold t (slots (numOsc s))
              (calcEdges s1 t (NotePeriods !!! Z.to_nat m)) Ht Hs2)
    as (_ & Hfr & _ & _).
  cbv zeta in Hfr. apply lockFrame_fields in Hfr.
  assert (Hlen : edgLen (fold_left (phaseLock t) (slots (numOsc s))
                   (calcEdges s1 t (NotePeriods !!! Z.to_nat m)))
                 = edgLen (calcEdges s t (NotePeriods !!! Z.to_nat m))).
  { rewrite (proj1 Hfr), !calcEdges_edgLen. reflexivity. }
  assert (Hnote : note (fold_left (phaseLock t) (slots (numOsc s))
                   (calcEdges s1 t (NotePeriods !!! Z.to_nat m)))
                  = <[t := m]> (note s)).
  { rewrite (proj1 (proj2 (proj2 Hfr))). apply calcEdges_note. }
  split.
  { rewrite Hnote. apply list_lookup_total_insert_eq.
    destruct Hs as (_ & _ & _ & _ & L5). lia. }
  split; [exact Hlen|].
  assert (Hslot : edgLen (fold_left (phaseLock t) (slots (numOsc s))
                    (calcEdges s1 t (NotePeriods !!! Z.to_nat m))) !!! t
                  = calcSteps (pW s) (NotePeriods !!! Z.to_nat m)).
  { rewrite Hlen. apply calcEdges_slot; assumption. }
  split; [exact Hslot|].
  intros Hpw. unfold period_of. rewrite Hslot.
  pose proof (table_entry_range m Hm) as HP.
  destruct (calcSteps_split (pW s) (NotePeriods !!! Z.to_nat m)) as (Hsum & _);
    [lia..|].
  exact Hsum.
Qed.

Lemma setNote_wraps_by_octaves_witness :
  exists s', setNote (flashImage 0) 18 powerOn 0 100 = Some s' /\
             note s' !!! 0%nat = 40 /\ period_of s' 0 = 36.
Proof.
  destruct (setNote_wraps_by_octaves (flashImage 0) 18 powerOn 0 100)
    as (_ & _ & _ & s' & H1 & H2 & _ & _ & H5).
  - apply (flashImage_tableAt 0); lia.
  - reflexivity.
  - reflexivity.
  - unfold MAX_OSC; lia.
  - repeat split.
  - lia.
  - unfold NoNote; lia.
  - lia.
  - exists s'. split; [exact H1|]. split; [exact H2|].
    apply H5. vm_compute. split; discriminate.
Defined.

(** *** Sample generation *)

Lemma edgeStep_lockFrame s j : lockFrame (edgeStep s j) = lockFrame s.
Proof.
  unfold edgeStep. cbv zeta.
  destruct (_ =? 0); reflexivity.
Qed.

Lemma edgeStep_sized s j : sized s -> sized (edgeStep s j).
Proof.
  intros (L1 & L2 & L3 & L4 & L5). unfold edgeStep. cbv zeta.
  destruct (_ =? 0); unfold sized; cbn; rewrite !length_insert; auto.
Qed.

Lemma edgeStep_other s j t : t <> j -> phase (edgeStep s j) t = phase s t.
Proof.
  intros Hne. unfold edgeStep. cbv zeta.
  destruct (_ =? 0); unfold phase; cbn;
    rewrite !list_lookup_total_insert_ne by auto; reflexivity.
Qed.

Lemma lxor_binary x : binary x -> binary (Z.lxor x 1).
Proof. intros [->| ->]; [right|left]; reflexivity. Qed.

Lemma edgeStep_binary s j t :
  binary (edgIdx s !!! t) -> binary (edgIdx (edgeStep s j) !!! t).
Proof.
  intros Hb. unfold edgeStep. cbv zeta.
  destruct (_ =? 0); cbn; [|exact Hb].
  rewrite list_lookup_total_insert.
  destruct (decide _) as [[-> _]|_]; [|exact Hb].
  apply lxor_binary, Hb.
Qed.

Lemma contribution_frame s s' t :
  lockFrame s' = lockFrame s -> phase s' t = phase s t ->
  contribution s' t = contribution s t.
Proof.
  intros Hfr Hph. apply lockFrame_fields in Hfr as (_ & Hv & _).
  unfold contribution. injection Hph as -> _. rewrite Hv. reflexivity.
Qed.

Lemma oscStep_fst r j : fst (oscStep r j) = edgeStep (fst r) j.
Proof. reflexivity. Qed.

Lemma oscStep_snd r j :
  snd (oscStep r j) = to_char (snd r + contribution (edgeStep (fst r) j) j).
Proof. reflexivity. Qed.

(** The inner loop of [output] keeps everything but the edge states, and
    keeps the edge indices binary. *)
Lemma oscStep_fold l s acc :
  sized s ->
  let r := fold_left oscStep l (s, acc) in
  sized (fst r) /\ lockFrame (fst r) = lockFrame s /\
  (forall t, binary (edgIdx s !!! t) -> binary (edgIdx (fst r) !!! t)) /\
  (forall t, t ∉ l -> phase (fst r) t = phase s t).
Proof.
  intros Hs. induction l as [|j l IH] using rev_ind; cbv zeta.
  - cbn. auto.
  - rewrite fold_left_app. cbn [fold_left]. cbv zeta in IH.
    destruct IH as (Hs1 & Hfr & Hbin & Hph).
    rewrite oscStep_fst.
    split; [apply edgeStep_sized, Hs1|].
    split; [rewrite edgeStep_lockFrame; exact Hfr|].
    split; [intros t Hb; apply edgeStep_binary, Hbin, Hb|].
    intros t Ht. rewrite elem_of_app, list_elem_of_singleton in Ht.
    rewrite edgeStep_other by tauto. apply Hph. tauto.
Qed.

Lemma sum_contributions_ext (f g : nat -> Z) l acc :
  (forall t, t ∈ l -> f t = g t) ->
  fold_left (fun a t => to_char (a + f t)) l acc
  = fold_left (fun a t => to_char (a + g t)) l acc.
Proof.
  revert acc. induction l as [|t l IH]; intros acc H; [reflexivity|].
  cbn. rewrite (H t) by apply list_elem_of_here.
  apply IH. intros u Hu. apply H, list_elem_of_further, Hu.
Qed.

(** The sample the inner loop accumulates is the sum of the
    contributions of the visited slots, read in the state the loop ends
    in. *)
Lemma oscStep_fold_sum l s acc :
  NoDup l ->
  let r := fold_left oscStep l (s, acc) in
  snd r = fold_left (fun a t => to_char (a + contribution (fst r) t)) l acc.
Proof.
  induction l as [|j l IH] using rev_ind; intros Hnd; cbv zeta.
  - reflexivity.
  - apply NoDup_app in Hnd as (Hnd & Hj & _).
    rewrite !fold_left_app. cbn [fold_left]. cbv zeta in IH.
    rewrite oscStep_snd, oscStep_fst. do 2 f_equal.
    rewrite (IH Hnd). apply sum_contributions_ext.
    intros t Ht. symmetry. apply contribution_frame.
    + apply edgeStep_lockFrame.
    + apply edgeStep_other. intros ->. apply (Hj j Ht), list_elem_of_here.
Qed.

Lemma tick_sized s : sized s -> sized (fst (tick s)).
Proof. intros Hs. apply (oscStep_fold (slots (numOsc s)) s 0 Hs). Qed.

Lemma tick_lockFrame s : sized s -> lockFrame (fst (tick s)) = lockFrame s.
Proof. intros Hs. apply (oscStep_fold (slots (numOsc s)) s 0 Hs). Qed.

Lemma tick_binary s t :
  sized s -> binary (edgIdx s !!! t) -> binary (edgIdx (fst (tick s)) !!! t).
Proof. intros Hs. apply (oscStep_fold (slots (numOsc s)) s 0 Hs). Qed.

(** Every sample of [output] is the sum of the contributions of the
    active slots. *)
Lemma tick_outVal s : sized s -> snd (tick s) = outValOf (fst (tick s)).
Proof.
  intros Hs. unfold outValOf.
  destruct (lockFrame_fields _ _ (tick_lockFrame s Hs)) as (_ & _ & _ & -> & _).
  apply oscStep_fold_sum, NoDup_seq.
Qed.

Lemma ticks_invariant (Q : DroneOscSection -> Prop) n s :
  (forall s, Q s -> Q (fst (tick s))) -> Q s -> Q (ticks n s).
Proof.
  intros Hstep. revert s. induction n as [|n IH]; intros s Hq; cbn; auto.
Qed.

Lemma setNote_NoNote_eq flash fuel s t :
  freeze s = false ->
  setNote flash fuel s t NoNote =
  Some (set_note (setSteps (set_edgIdx s (<[t := 0]> (edgIdx s))) t 0 0)
          (<[t := NoNote]> (note s))).
Proof. intros Hf. unfold setNote. rewrite Hf. reflexivity. Qed.

Lemma to_char_idem x : to_char (to_char x + 0) = to_char x.
Proof.
  rewrite Z.add_0_r. unfold to_char.
  replace ((x + 128) mod 256 - 128 + 128) with ((x + 128) mod 256) by lia.
  rewrite Z.mod_mod by lia. reflexivity.
Qed.

(** The sample as the sum of the addends of all [MAX_OSC] slots: the
    slots from [numOsc] up add nothing. *)
Lemma outValOf_addends x :
  0 <= numOsc x <= Z.of_nat MAX_OSC ->
  outValOf x
  = fold_left (fun acc t => to_char (acc + addend x t))
      (slots (Z.of_nat MAX_OSC)) 0.
Proof.
  intros HN. unfold MAX_OSC in *. unfold outValOf, addend.
  change (slots (Z.of_nat 4)) with [0; 1; 2; 3]%nat.
  assert (Hcase : numOsc x = 0 \/ numOsc x = 1 \/ numOsc x = 2 \/
                  numOsc x = 3 \/ numOsc x = 4) by lia.
  destruct Hcase as [E|[E|[E|[E|E]]]]; rewrite E; cbn [fold_left];
    [change (slots 0) with (@nil nat)
    |change (slots 1) with [0]%nat
    |change (slots 2) with [0; 1]%nat
    |change (slots 3) with [0; 1; 2]%nat
    |change (slots 4) with [0; 1; 2; 3]%nat];
    cbn [fold_left Z.of_nat Z.ltb Z.compare Pos.compare Pos.compare_cont
         Pos.of_succ_nat Pos.succ];
    rewrite ?to_char_idem; reflexivity.
Qed.

(** C5, amended. With [freeze] false, [setNote( t, NoNote )] leaves slot
    [t] with both edge lengths 0, edge index 0, the sentinel as its note
    and the amplitude [ampOsc] as its low edge value. Every later sample
    of [output] is the sum of the addends of the slots, and in it the
    edge lengths of slot [t] are still 0 and its edge index 0 or 1. A slot
    that is not active ([t >= numOsc]) adds nothing to any of these
    samples. An active slot ([t < numOsc]) whose high edge value is
    [ampOsc] too (as [setNumOsc] leaves it) does not add zero: it adds the
    constant [ampOsc] to every one of them, whichever edge it is on. *)
Theorem setNote_NoNote_constant flash fuel s t :
  freeze s = false -> (t < MAX_OSC)%nat -> sized s ->
  exists s',
    setNote flash fuel s t NoNote = Some s' /\
    edgLen s' !!! t = (0, 0) /\ edgIdx s' !!! t = 0 /\
    note s' !!! t = NoNote /\
    snd (edgVal s' !!! t) = to_char (ampOsc s) /\
    forall n,
      let x := fst (tick (ticks n s')) in
      edgLen x !!! t = (0, 0) /\ binary (edgIdx x !!! t) /\
      snd (tick (ticks n s')) = outValOf x /\
      (0 <= numOsc s <= Z.of_nat MAX_OSC ->
       snd (tick (ticks n s'))
       = fold_left (fun acc i => to_char (acc + addend x i))
           (slots (Z.of_nat MAX_OSC)) 0) /\
      (numOsc s <= Z.of_nat t -> addend x t = 0) /\
      (Z.of_nat t < numOsc s -> fst (edgVal s !!! t) = to_char (ampOsc s) ->
       addend x t = to_char (ampOsc s)).
Proof.
  intros Hf Ht Hs. destruct Hs as (L1 & L2 & L3 & L4 & L5).
  eexists. split; [apply setNote_NoNote_eq, Hf|].
  set (s' := set_note _ _).
  assert (Hs' : sized s').
  { unfold sized, s'. cbn. rewrite !length_insert. auto. }
  assert (Hlen : edgLen s' !!! t = (0, 0)).
  { unfold s'. cbn. apply list_lookup_total_insert_eq. lia. }
  assert (Hidx : edgIdx s' !!! t = 0).
  { unfold s'. cbn. apply list_lookup_total_insert_eq. lia. }
  assert (Hval : edgVal s' !!! t = (fst (edgVal s !!! t), to_char (ampOsc s))).
  { unfold s'. cbn. apply list_lookup_total_insert_eq. lia. }
  assert (Hnum : numOsc s' = numOsc s) by reflexivity.
  split; [exact Hlen|]. split; [exact Hidx|].
  split; [unfold s'; cbn; apply list_lookup_total_insert_eq; lia|].
  split; [rewrite Hval; reflexivity|].
  intros n. cbv zeta.
  assert (Hinv : sized (ticks n s') /\ lockFrame (ticks n s') = lockFrame s' /\
                 binary (edgIdx (ticks n s') !!! t)).
  { apply (ticks_invariant
             (fun x => sized x /\ lockFrame x = lockFrame s' /\
                       binary (edgIdx x !!! t))).
    - intros x (Hx & Hfr & Hb). split; [apply tick_sized, Hx|].
      split; [rewrite tick_lockFrame by exact Hx; exact Hfr|].
      apply tick_binary; assumption.
    - split; [exact Hs'|]. split; [reflexivity|]. left. exact Hidx. }
  destruct Hinv as (Hsn & Hfr & Hb).
  pose proof (tick_binary _ t Hsn Hb) as Hb'.
  pose proof (tick_lockFrame _ Hsn) as Hfr'. rewrite Hfr in Hfr'.
  set (x := fst (tick (ticks n s'))) in *.
  apply lockFrame_fields in Hfr' as (Hl & Hv & _ & HN & _).
  rewrite Hnum in HN.
  split; [rewrite Hl; exact Hlen|]. split; [exact Hb'|].
  split; [apply tick_outVal, Hsn|].
  split; [|split].
  - intros Hb4. rewrite (tick_outVal _ Hsn). fold x.
    apply outValOf_addends. rewrite HN. exact Hb4.
  - intros Hge. unfold addend. rewrite HN.
    destruct (Z.ltb_spec (Z.of_nat t) (numOsc s)); [lia|reflexivity].
  - intros Hlt Hamp. unfold addend. rewrite HN.
    destruct (Z.ltb_spec (Z.of_nat t) (numOsc s)); [|lia].
    unfold contribution, edge. rewrite Hv, Hval, Hamp. cbn [fst snd].
    destruct (_ =? 0); reflexivity.
Qed.

(** Slot 1 of [unisonPair] sounds note 7 with edges of 120 and 120
    samples: silenced, it adds 63 to the sample 300 ticks later. In
    [pairCut] the same slot is not active: silenced, it adds nothing. *)
Lemma setNote_NoNote_constant_witness :
  (edgLen unisonPair !!! 1%nat = (120, 120) /\
   exists s',
     setNote (flashImage 0) 0 unisonPair 1 NoNote = Some s' /\
     edgLen s' !!! 1%nat = (0, 0) /\
     addend (fst (tick (ticks 300 s'))) 1 = 63) /\
  (edgLen pairCut !!! 1%nat = (120, 120) /\
   exists s',
     setNote (flashImage 0) 0 pairCut 1 NoNote = Some s' /\
     edgLen s' !!! 1%nat = (0, 0) /\
     addend (fst (tick (ticks 300 s'))) 1 = 0).
Proof.
  assert (Ht : (1 < MAX_OSC)%nat) by (unfold MAX_OSC; lia).
  split; (split; [reflexivity|]).
  - destruct (setNote_NoNote_constant (flashImage 0) 0 unisonPair 1)
      as (s' & H1 & H2 & _ & _ & _ & H6).
    + reflexivity.
    + exact Ht.
    + repeat split.
    + exists s'. split; [exact H1|]. split; [exact H2|].
      destruct (H6 300%nat) as (_ & _ & _ & _ & _ & Hact).
      apply Hact; reflexivity.
  - destruct (setNote_NoNote_constant (flashImage 0) 0 pairCut 1)
      as (s' & H1 & H2 & _ & _ & _ & H6).
    + reflexivity.
    + exact Ht.
    + repeat split.
    + exists s'. split; [exact H1|]. split; [exact H2|].
      destruct (H6 300%nat) as (_ & _ & _ & _ & Hin & _).
      apply Hin. vm_compute. discriminate.
Defined.

(** C5 as stated fails: slot 0 of a one-oscillator section, sounding
    note 0 with edges of 180 and 180 samples, is active; silenced by
    [setNote( 0, NoNote )] it adds 127 to the next sample, which is
    127. *)
Lemma setNote_NoNote_not_zero :
  freeze lowestNote = false /\ numOsc lowestNote = 1 /\
  edgLen lowestNote !!! 0%nat = (180, 180) /\
  exists s',
    setNote (flashImage 0) 0 lowestNote 0 NoNote = Some s' /\
    edgLen s' !!! 0%nat = (0, 0) /\
    addend (fst (tick s')) 0 = 127 /\
    snd (tick s') = 127 /\
    addend (fst (tick s')) 0 <> 0.
Proof.
  split; [reflexivity|]. split; [reflexivity|]. split; [reflexivity|].
  eexists. split; [reflexivity|].
  vm_compute. repeat split; discriminate.
Qed.

(** *** Phase lock *)

(** What a sounding [setNote] does to notes and edge states: slot [t]
    takes the edge state of some other active slot with the same note, if
    there is one. *)
Lemma setNote_lock flash fuel s t n m :
  freeze s = false -> n <> NoNote ->
  wrapNote fuel (numNotes s) n = Some m ->
  (t < MAX_OSC)%nat -> sized s ->
  exists s',
    setNote flash fuel s t n = Some s' /\ sized s' /\
    (periods s', numNotes s', numOsc s', freeze s')
      = (periods s, numNotes s, numOsc s, freeze s) /\
    note s' = <[t := m]> (note s) /\
    (forall j, j <> t -> phase s' j = phase s j) /\
    ((forall i, Z.of_nat i < numOsc s -> i <> t -> note s !!! i <> m) /\
       phase s' t = phase s t
     \/ exists i, Z.of_nat i < numOsc s /\ i <> t /\ note s !!! i = m /\
                  phase s' t = phase s i).
Proof.
  intros Hf Hn Hw Ht Hs.
  eexists. split; [apply setNote_sounding; eassumption|].
  set (P := pgm_read_word_near _ _).
  set (s1 := set_note s (<[t := m]> (note s))).
  assert (Hs1 : sized s1).
  { destruct Hs as (L1 & L2 & L3 & L4 & L5). unfold sized, s1. cbn.
    rewrite length_insert. auto. }
  pose proof (calcEdges_sized s1 t P Hs1) as Hs2.
  destruct (phaseLock_fold t (slots (numOsc s)) (calcEdges s1 t P) Ht Hs2)
    as (Hs' & Hfr & Hoth & Hcase).
  cbv zeta in *. set (s' := fold_left _ _ _) in *.
  apply lockFrame_fields in Hfr
    as (_ & _ & Hnote & Hnum & _ & _ & Hfz & Hnn & Hper).
  assert (Hnt : note (calcEdges s1 t P) !!! t = m).
  { rewrite calcEdges_note. unfold s1. cbn.
    apply list_lookup_total_insert_eq. destruct Hs as (_ & _ & _ & _ & L5). lia. }
  assert (Hni : forall i, i <> t -> note (calcEdges s1 t P) !!! i = note s !!! i).
  { intros i Hi. rewrite calcEdges_note. unfold s1. cbn.
    apply list_lookup_total_insert_ne. auto. }
  split; [exact Hs'|]. split.
  { rewrite Hper, Hnn, Hnum, Hfz, calcEdges_scalars. reflexivity. }
  split; [rewrite Hnote, calcEdges_note; reflexivity|].
  split.
  { intros j Hj. rewrite (Hoth j Hj), calcEdges_phase. reflexivity. }
  rewrite Hnt in Hcase.
  destruct Hcase as [[Hno Hph]|(i & Hi & Hit & Hin & Hph)].
  - left. split.
    + intros i Hi Hit. rewrite <- (Hni i Hit). apply Hno; [|exact Hit].
      apply elem_of_slots, Hi.
    + rewrite Hph, calcEdges_phase. reflexivity.
  - right. exists i. split; [apply elem_of_slots, Hi|]. split; [exact Hit|].
    split; [rewrite <- (Hni i Hit); exact Hin|].
    rewrite Hph, calcEdges_phase. reflexivity.
Qed.

(** C6, amended. Two slots [a] and [b] of a section, [a] active, are set
    to the same note by two [setNote] calls with no sample in between
    ([freeze] false, the note not the sentinel). If the other active
    slots that already sound that note agree on their edge state, then
    after both calls [a] and [b] have the same edge index and the same
    countdown. *)
Theorem setNote_twice_phase_locked flash fuel s a b n :
  numNotes s = 48 -> freeze s = false ->
  sized s -> (a < MAX_OSC)%nat -> (b < MAX_OSC)%nat -> a <> b ->
  Z.of_nat a < numOsc s ->
  0 <= n <= 255 -> n <> NoNote -> (18 <= fuel)%nat ->
  unisonAgree s a (octaveReduce n) ->
  exists s1 s2,
    setNote flash fuel s a n = Some s1 /\
    setNote flash fuel s1 b n = Some s2 /\
    edgIdx s2 !!! a = edgIdx s2 !!! b /\
    edgeDC s2 !!! a = edgeDC s2 !!! b.
Proof.
  intros Hnn Hfz Hs Ha Hb Hab HaN Hn Hno Hfuel Hagree.
  set (m := octaveReduce n) in *.
  assert (Hw : wrapNote fuel 48 n = Some m)
    by (apply wrapNote_octaveReduce; lia).
  destruct (setNote_lock flash fuel s a n m) as
    (s1 & E1 & Hs1 & Hfr1 & Hnote1 & Hoth1 & Hcase1);
    [assumption|assumption|rewrite Hnn; exact Hw|assumption|assumption|].
  injection Hfr1 as Hper1 Hnn1 Hnum1 Hfz1.
  destruct (setNote_lock flash fuel s1 b n m) as
    (s2 & E2 & Hs2 & _ & _ & Hoth2 & Hcase2);
    [congruence|assumption|rewrite Hnn1, Hnn; exact Hw|assumption|assumption|].
  exists s1, s2. split; [exact E1|]. split; [exact E2|].
  assert (Hla : (a < length (note s))%nat)
    by (destruct Hs as (_ & _ & _ & _ & L5); lia).
  assert (Hna : note s1 !!! a = m)
    by (rewrite Hnote1; apply list_lookup_total_insert_eq, Hla).
  assert (Heq : phase s2 a = phase s2 b).
  { rewrite (Hoth2 a Hab).
    destruct Hcase2 as [[Hno2 _]|(i & HiN & Hib & Hin & Hph2)].
    { exfalso. apply (Hno2 a); [rewrite Hnum1; exact HaN|exact Hab|exact Hna]. }
    rewrite Hph2. destruct (decide (i = a)) as [->|Hia]; [reflexivity|].
    rewrite (Hoth1 i Hia).
    rewrite Hnote1, list_lookup_total_insert_ne in Hin by auto.
    rewrite Hnum1 in HiN.
    destruct Hcase1 as [[Hno1 _]|(k & HkN & Hka & Hkn & Hph1)].
    { exfalso. apply (Hno1 i HiN Hia Hin). }
    rewrite Hph1. apply Hagree; assumption. }
  unfold phase in Heq. injection Heq. auto.
Qed.

Lemma unisonQuad_agree : unisonAgree unisonQuad 0 (octaveReduce 7).
Proof.
  assert (EN : numOsc unisonQuad = 4) by (vm_compute; reflexivity).
  assert (N1 : note unisonQuad !!! 1%nat <> octaveReduce 7)
    by (vm_compute; discriminate).
  assert (P23 : phase unisonQuad 2 = phase unisonQuad 3)
    by (vm_compute; reflexivity).
  intros c d Hc Hd HcN HdN Nc Nd. rewrite EN in HcN, HdN.
  assert (Hc' : c = 1%nat \/ c = 2%nat \/ c = 3%nat) by (clear - Hc HcN; lia).
  assert (Hd' : d = 1%nat \/ d = 2%nat \/ d = 3%nat) by (clear - Hd HdN; lia).
  clear Hc Hd HcN HdN.
  destruct Hc' as [->|[->| ->]]; [contradiction| |];
    (destruct Hd' as [->|[->| ->]]; [contradiction| |]);
    first [reflexivity | exact P23 | symmetry; exact P23].
Qed.

(** In [unisonQuad] slots 2 and 3 sound note 7 with countdown 70, slots 0
    and 1 are silent with countdown 0: set to note 7 one after the other,
    slots 0 and 1 both take the countdown 70. *)
Lemma setNote_twice_phase_locked_witness :
  numOsc unisonQuad = 4 /\ note unisonQuad = [255; 255; 7; 7] /\
  phase unisonQuad 0 = (0, 0) /\ phase unisonQuad 1 = (0, 0) /\
  phase unisonQuad 2 = (0, 70) /\ phase unisonQuad 3 = (0, 70) /\
  setNote (flashImage 0) 18 unisonQuad 0 7 = Some quadFirst /\
  setNote (flashImage 0) 18 quadFirst 1 7 = Some quadBoth /\
  edgIdx quadBoth !!! 0%nat = edgIdx quadBoth !!! 1%nat /\
  edgeDC quadBoth !!! 0%nat = edgeDC quadBoth !!! 1%nat /\
  phase quadBoth 0 = (0, 70).
Proof.
  assert (C1 : setNote (flashImage 0) 18 unisonQuad 0 7 = Some quadFirst)
    by (vm_compute; reflexivity).
  assert (C2 : setNote (flashImage 0) 18 quadFirst 1 7 = Some quadBoth)
    by (vm_compute; reflexivity).
  do 6 (split; [vm_compute; reflexivity|]).
  split; [exact C1|]. split; [exact C2|].
  assert (Hnn : numNotes unisonQuad = 48) by (vm_compute; reflexivity).
  assert (Hfz : freeze unisonQuad = false) by (vm_compute; reflexivity).
  assert (Hsz : sized unisonQuad) by (repeat split; vm_compute; reflexivity).
  assert (Ha : (0 < MAX_OSC)%nat) by (unfold MAX_OSC; lia).
  assert (Hb : (1 < MAX_OSC)%nat) by (unfold MAX_OSC; lia).
  assert (Hab : 0%nat <> 1%nat) by discriminate.
  assert (Hact : Z.of_nat 0 < numOsc unisonQuad) by (vm_compute; reflexivity).
  assert (Hn : 0 <= 7 <= 255) by lia.
  assert (Hno : 7 <> NoNote) by (unfold NoNote; lia).
  assert (Hfuel : (18 <= 18)%nat) by lia.
  destruct (setNote_twice_phase_locked (flashImage 0) 18 unisonQuad 0 1 7
              Hnn Hfz Hsz Ha Hb Hab Hact Hn Hno Hfuel unisonQuad_agree)
    as (s1 & s2 & E1 & E2 & I & D).
  assert (S1 : Some quadFirst = Some s1) by (rewrite <- C1; exact E1).
  apply (inj Some) in S1.
  subst s1.
  assert (S2 : Some quadBoth = Some s2) by (rewrite <- C2; exact E2).
  apply (inj Some) in S2.
  subst s2.
  split; [exact I|]. split; [exact D|]. vm_compute. reflexivity.
Defined.

(** C6 as stated fails: with slots 1 and 2 sounding note 5 ten samples
    apart, setting slot 0 and then slot 2 to note 5 leaves slot 0 with
    the old countdown of slot 2 and slot 2 with the countdown of
    slot 1. And with one oscillator, setting the inactive slot 1 and then
    slot 0 to note 7 locks neither to the other: the loop of the second
    call visits the active slots only. *)
Lemma setNote_twice_not_locked :
  (s ← unisonSplit;
   s1 ← setNote (flashImage 0) 18 s 0 5;
   s2 ← setNote (flashImage 0) 18 s1 2 5;
   Some (freeze s, numOsc s, phase s 1, phase s 2, phase s2 0, phase s2 2))
  = Some (false, 3, (0, 125), (0, 0), (0, 0), (0, 125))
  /\ (0, 0) <> (0, 125)
  /\ (s ← soloShifted;
      s1 ← setNote (flashImage 0) 18 s 1 7;
      s2 ← setNote (flashImage 0) 18 s1 0 7;
      Some (freeze s, numOsc s, phase s2 1, phase s2 0))
     = Some (false, 1, (0, 0), (0, 140))
  /\ (0, 0) <> (0, 140).
Proof.
  split; [vm_compute; reflexivity|]. split; [discriminate|].
  split; [vm_compute; reflexivity|discriminate].
Qed.

(** *** Phase presets *)

Lemma normPhase_mod fuel period ph :
  0 < period -> 0 <= ph <= 65535 -> ph / period <= Z.of_nat fuel ->
  normPhase fuel period ph = Some (ph mod period).
Proof.
  intros Hp. revert ph. induction fuel as [|fuel IH]; intros ph Hph Hf;
    cbn [normPhase].
  - destruct (Z.ltb_spec ph period) as [Hlt|Hge].
    + rewrite Z.mod_small by lia. reflexivity.
    + exfalso. assert (1 <= ph / period) by (apply Z.div_le_lower_bound; lia).
      lia.
  - destruct (Z.ltb_spec ph period) as [Hlt|Hge].
    + rewrite Z.mod_small by lia. reflexivity.
    + rewrite (to_word_id (ph - period)) by (unfold is_word; lia).
      assert (Hdiv : (ph - period) / period = ph / period - 1).
      { replace (ph - period) with (ph + (-1) * period) by lia.
        rewrite Z.div_add by lia. lia. }
      rewrite IH by lia. f_equal.
      replace (ph - period) with (ph + (-1) * period) by lia.
      apply Z.mod_add. lia.
Qed.

Lemma normPhase_zero fuel ph : 0 <= ph -> normPhase fuel 0 ph = None.
Proof.
  revert ph. induction fuel as [|fuel IH]; intros ph Hph; cbn [normPhase];
    destruct (Z.ltb_spec ph 0); try lia; [reflexivity|].
  apply IH. unfold to_word. pose proof (Z.mod_pos_bound (ph - 0) 65536). lia.
Qed.

Lemma edgeStep_edgLen s j : edgLen (edgeStep s j) = edgLen s.
Proof. apply (lockFrame_fields _ _ (edgeStep_lockFrame s j)). Qed.

(** One sample of the edge state machine, on the edge state alone. *)
Lemma edgeStep_phase s t :
  (t < MAX_OSC)%nat -> sized s ->
  phase (edgeStep s t) t =
  let dc := to_byte (snd (phase s t) - 1) in
  let idx := Z.lxor (fst (phase s t)) 1 in
  if dc =? 0 then (idx, edge (edgLen s !!! t) idx) else (fst (phase s t), dc).
Proof.
  intros Ht (L1 & L2 & L3 & L4 & L5). unfold edgeStep, phase. cbn.
  rewrite !list_lookup_total_insert_eq by lia.
  destruct (_ =? 0); cbn.
  - rewrite !list_lookup_total_insert_eq by (rewrite ?length_insert; lia).
    reflexivity.
  - rewrite !list_lookup_total_insert_eq by lia. reflexivity.
Qed.

(** The edge state [k] samples after the start of the high edge. *)
Lemma samplesFrom_phase s t k :
  (t < MAX_OSC)%nat -> sized s ->
  is_byte (fst (edgLen s !!! t)) -> is_byte (snd (edgLen s !!! t)) ->
  0 < fst (edgLen s !!! t) -> Z.of_nat k < period_of s t ->
  sized (samplesFrom k s t) /\ edgLen (samplesFrom k s t) = edgLen s /\
  phase (samplesFrom k s t) t =
    if Z.of_nat k <? fst (edgLen s !!! t)
    then (0, fst (edgLen s !!! t) - Z.of_nat k)
    else (1, period_of s t - Z.of_nat k).
Proof.
  intros Ht Hs H0 H1 Hpos. unfold period_of, is_byte in *.
  set (L0 := fst (edgLen s !!! t)) in *.
  set (L1 := snd (edgLen s !!! t)) in *.
  induction k as [|k IH]; intros Hk.
  - destruct Hs as (S1 & S2 & S3 & S4 & S5).
    split; [unfold sized; cbn; rewrite !length_insert; auto|].
    split; [reflexivity|].
    destruct (Z.ltb_spec (Z.of_nat 0) L0); [|lia].
    replace (L0 - Z.of_nat 0) with L0 by lia.
    unfold samplesFrom, edgeStart, phase. cbn.
    rewrite !list_lookup_total_insert_eq by lia.
    reflexivity.
  - destruct IH as (Hsz & Hlen & Hph); [lia|].
    unfold samplesFrom in *. rewrite Nat.iter_succ.
    set (sk := Nat.iter k (fun s0 => edgeStep s0 t) (edgeStart s t)) in *.
    split; [apply edgeStep_sized, Hsz|].
    split; [rewrite edgeStep_edgLen; exact Hlen|].
    rewrite (edgeStep_phase sk t Ht Hsz), Hph, Hlen. cbv zeta.
    assert (Hrow : edgLen s !!! t = (L0, L1)) by apply surjective_pairing.
    rewrite Hrow.
    destruct (Z.ltb_spec (Z.of_nat k) L0) as [Hlt|Hge]; cbn [fst snd].
    + rewrite (to_byte_id (L0 - Z.of_nat k - 1)) by (unfold is_byte; lia).
      destruct (Z.eqb_spec (L0 - Z.of_nat k - 1) 0) as [Hz|Hnz].
      * destruct (Z.ltb_spec (Z.of_nat (S k)) L0); [lia|].
        change (Z.lxor 0 1) with 1. unfold edge.
        change (1 =? 0) with false. cbn [fst snd]. f_equal. lia.
      * destruct (Z.ltb_spec (Z.of_nat (S k)) L0); [|lia].
        f_equal. lia.
    + rewrite (to_byte_id (L0 + L1 - Z.of_nat k - 1)) by (unfold is_byte; lia).
      destruct (Z.eqb_spec (L0 + L1 - Z.of_nat k - 1) 0) as [Hz|Hnz]; [lia|].
      destruct (Z.ltb_spec (Z.of_nat (S k)) L0); [lia|].
      f_equal. lia.
Qed.

(** C10. For a slot whose period [edgLen[t][0] + edgLen[t][1]] is
    positive, [setPhase( t, phase )] ends, [phase / period] rounds of its
    loop being enough, and leaves slot [t], and nothing else, in the edge
    state reached [phase mod period] samples after the start of the high
    edge: on the high edge with the rest of it to go when that is less
    than the high length, else on the low edge with the rest of the
    period to go; which is the state the edge state machine of [output]
    reaches in that many samples. For a slot of period 0 the loop does not
    end, whatever the phase and however many rounds it is given. *)
Theorem setPhase_ends_iff_period s t ph :
  (t < MAX_OSC)%nat -> sized s ->
  is_byte (fst (edgLen s !!! t)) -> is_byte (snd (edgLen s !!! t)) ->
  is_word ph ->
  (0 < period_of s t ->
   exists s',
     (forall fuel, ph / period_of s t <= Z.of_nat fuel ->
                   setPhase fuel s t ph = Some s') /\
     lockFrame s' = lockFrame s /\
     (forall j, j <> t -> phase s' j = phase s j) /\
     (let p := ph mod period_of s t in
      phase s' t = if p <? fst (edgLen s !!! t)
                   then (0, fst (edgLen s !!! t) - p)
                   else (1, period_of s t - p)) /\
     (0 < fst (edgLen s !!! t) ->
      phase s' t = phase (samplesFrom (Z.to_nat (ph mod period_of s t)) s t) t))
  /\
  (period_of s t = 0 -> forall fuel, setPhase fuel s t ph = None).
Proof.
  intros Ht Hs H0 H1 Hph. unfold period_of, is_byte, is_word in *.
  set (L0 := fst (edgLen s !!! t)) in *.
  set (L1 := snd (edgLen s !!! t)) in *.
  assert (Hper : to_word (L0 + L1) = L0 + L1)
    by (apply to_word_id; unfold is_word; lia).
  split.
  - intros Hpos.
    pose proof (Z.mod_pos_bound ph (L0 + L1) Hpos) as Hp.
    set (p := ph mod (L0 + L1)) in *.
    assert (Hres : exists s',
      (forall fuel, ph / (L0 + L1) <= Z.of_nat fuel ->
                    setPhase fuel s t ph = Some s') /\
      lockFrame s' = lockFrame s /\
      (forall j, j <> t -> phase s' j = phase s j) /\
      phase s' t = if p <? L0 then (0, L0 - p) else (1, L0 + L1 - p)).
    { destruct Hs as (S1 & S2 & S3 & S4 & S5).
      destruct (Z.ltb_spec p L0) as [Hlt|Hge].
      - eexists. split.
        { intros fuel Hf. unfold setPhase. fold L0 L1. cbv zeta.
          rewrite Hper, (normPhase_mod fuel (L0 + L1) ph Hpos) by lia.
          fold p. destruct (Z.ltb_spec p L0); [reflexivity|lia]. }
        split; [reflexivity|]. split.
        + intros j Hj. unfold phase. cbn.
          rewrite !list_lookup_total_insert_ne by auto. reflexivity.
        + unfold phase. cbn [edgIdx edgeDC edgLen set_edgIdx set_edgeDC].
          rewrite !list_lookup_total_insert_eq by lia.
          fold L0. rewrite to_byte_id by (unfold is_byte; lia). reflexivity.
      - eexists. split.
        { intros fuel Hf. unfold setPhase. fold L0 L1. cbv zeta.
          rewrite Hper, (normPhase_mod fuel (L0 + L1) ph Hpos) by lia.
          fold p. destruct (Z.ltb_spec p L0); [lia|reflexivity]. }
        split; [reflexivity|]. split.
        + intros j Hj. unfold phase. cbn.
          rewrite !list_lookup_total_insert_ne by auto. reflexivity.
        + unfold phase. cbn [edgIdx edgeDC edgLen set_edgIdx set_edgeDC].
          rewrite !list_lookup_total_insert_eq by lia.
          rewrite to_byte_id by (unfold is_byte; lia). reflexivity. }
    destruct Hres as (s' & Hrun & Hfr & Hoth & Hst).
    exists s'. split; [exact Hrun|]. split; [exact Hfr|].
    split; [exact Hoth|]. split; [exact Hst|].
    intros HL0.
    destruct (samplesFrom_phase s t (Z.to_nat p) Ht Hs) as (_ & _ & Hsam);
      try (unfold is_byte, period_of; fold L0 L1; lia).
    rewrite Hsam, Hst. unfold period_of. fold L0 L1.
    rewrite Z2Nat.id by lia. reflexivity.
  - intros Hz fuel. unfold setPhase. fold L0 L1. cbv zeta.
    rewrite Hper, Hz, normPhase_zero by lia. reflexivity.
Qed.

Lemma setPhase_ends_iff_period_witness :
  (exists s', setPhase 1 lowestNote 0 400 = Some s' /\ phase s' 0 = (0, 140)) /\
  setPhase 1000 powerOn 0 400 = None.
Proof.
  assert (Ht : (0 < MAX_OSC)%nat) by (unfold MAX_OSC; lia).
  assert (Hw : is_word 400) by (unfold is_word; lia).
  split.
  - destruct (setPhase_ends_iff_period lowestNote 0 400 Ht) as [Hpos _].
    + repeat split.
    + vm_compute. split; discriminate.
    + vm_compute. split; discriminate.
    + exact Hw.
    + destruct Hpos as (s' & Hrun & _ & _ & Hst & _); [reflexivity|].
      exists s'. split; [apply Hrun; vm_compute; discriminate|exact Hst].
  - destruct (setPhase_ends_iff_period powerOn 0 400 Ht) as [_ Hzero].
    + repeat split.
    + vm_compute. split; discriminate.
    + vm_compute. split; discriminate.
    + exact Hw.
    + apply Hzero. reflexivity.
Defined.

End OscFacts.

(** ** Fades and mixing *)

Module SynthFacts.

Import Synth.

Section Fades.

Context {B : Type} `{TwoVoxPanSynth B}.

Implicit Type s : DroneSynth B.

Lemma dynamicsN_succ n s : dynamicsN (S n) s = dynamics (dynamicsN n s).
Proof.
  revert s. induction n as [|n IH]; intros s; [reflexivity|].
  change (dynamicsN (S (S n)) s) with (dynamicsN (S n) (dynamics s)).
  rewrite IH. reflexivity.
Qed.

Lemma dynamics_fade_in s :
  playStatus s = FADE_IN -> is_byte (vol s) ->
  vol s = 255 /\ playStatus (dynamics s) = PLAYING /\ vol (dynamics s) = 255
  \/ vol s < 255 /\ playStatus (dynamics s) = FADE_IN /\
     vol (dynamics s) = vol s + 1.
Proof.
  intros Hst Hv. unfold is_byte in Hv. unfold dynamics. rewrite Hst.
  destruct (Z.eqb_spec (vol s) 255) as [Heq|Hne]; cbn.
  - left. auto.
  - right. rewrite to_byte_id by (unfold is_byte; lia). split; [lia|auto].
Qed.

Lemma dynamics_fade_out s :
  playStatus s = FADE_OUT -> is_byte (vol s) ->
  vol s = 0 /\ playStatus (dynamics s) = STOPPED /\ vol (dynamics s) = 0
  \/ 0 < vol s /\ playStatus (dynamics s) = FADE_OUT /\
     vol (dynamics s) = vol s - 1.
Proof.
  intros Hst Hv. unfold is_byte in Hv. unfold dynamics. rewrite Hst.
  destruct (Z.eqb_spec (vol s) 0) as [Heq|Hne]; cbn.
  - left. auto.
  - right. rewrite to_byte_id by (unfold is_byte; lia). split; [lia|auto].
Qed.

(** The ramp up: [k] ticks into a fade-in the volume has gone up by [k]. *)
Lemma fade_in_ramp k s :
  playStatus s = FADE_IN -> is_byte (vol s) ->
  Z.of_nat k <= 255 - vol s ->
  playStatus (dynamicsN k s) = FADE_IN /\
  vol (dynamicsN k s) = vol s + Z.of_nat k.
Proof.
  intros Hst Hv. induction k as [|k IH]; intros Hk.
  - cbn. split; [exact Hst|lia].
  - destruct IH as (IHst & IHv); [lia|].
    rewrite dynamicsN_succ.
    destruct (dynamics_fade_in (dynamicsN k s) IHst) as [(E & _)|(_ & E1 & E2)].
    + unfold is_byte in *. lia.
    + lia.
    + split; [exact E1|]. rewrite E2, IHv. lia.
Qed.

(** The ramp down. *)
Lemma fade_out_ramp k s :
  playStatus s = FADE_OUT -> is_byte (vol s) ->
  Z.of_nat k <= vol s ->
  playStatus (dynamicsN k s) = FADE_OUT /\
  vol (dynamicsN k s) = vol s - Z.of_nat k.
Proof.
  intros Hst Hv. induction k as [|k IH]; intros Hk.
  - cbn. split; [exact Hst|lia].
  - destruct IH as (IHst & IHv); [lia|].
    rewrite dynamicsN_succ.
    destruct (dynamics_fade_out (dynamicsN k s) IHst) as [(E & _)|(_ & E1 & E2)].
    + unfold is_byte in *. lia.
    + lia.
    + split; [exact E1|]. rewrite E2, IHv. lia.
Qed.

(** C7. While [playStatus] is [FADE_IN], a call of [dynamics()] either
    adds exactly 1 to [vol] or, at 255, turns the status to [PLAYING]; so
    over the ticks of a fade-in the volume goes up by one per tick, never
    down, until it is 255, and the tick after that the status is
    [PLAYING]. In [FADE_OUT] the volume goes down by one per tick, never
    up, until it is 0, and the tick after that the status is [STOPPED]. *)
Theorem dynamics_fades s :
  is_byte (vol s) ->
  (playStatus s = FADE_IN ->
   (vol s = 255 /\ playStatus (dynamics s) = PLAYING /\ vol (dynamics s) = 255
    \/ vol s < 255 /\ playStatus (dynamics s) = FADE_IN /\
       vol (dynamics s) = vol s + 1) /\
   (forall k, Z.of_nat k <= 255 - vol s ->
      playStatus (dynamicsN k s) = FADE_IN /\
      vol (dynamicsN k s) = vol s + Z.of_nat k /\
      vol (dynamicsN k s) <= vol (dynamicsN (S k) s)) /\
   playStatus (dynamicsN (Z.to_nat (256 - vol s)) s) = PLAYING /\
   vol (dynamicsN (Z.to_nat (256 - vol s)) s) = 255)
  /\
  (playStatus s = FADE_OUT ->
   (vol s = 0 /\ playStatus (dynamics s) = STOPPED /\ vol (dynamics s) = 0
    \/ 0 < vol s /\ playStatus (dynamics s) = FADE_OUT /\
       vol (dynamics s) = vol s - 1) /\
   (forall k, Z.of_nat k <= vol s ->
      playStatus (dynamicsN k s) = FADE_OUT /\
      vol (dynamicsN k s) = vol s - Z.of_nat k /\
      vol (dynamicsN (S k) s) <= vol (dynamicsN k s)) /\
   playStatus (dynamicsN (Z.to_nat (vol s + 1)) s) = STOPPED /\
   vol (dynamicsN (Z.to_nat (vol s + 1)) s) = 0).
Proof.
  intros Hv. pose proof Hv as Hv'. unfold is_byte in Hv'. split; intros Hst.
  - split; [apply dynamics_fade_in; assumption|].
    assert (Hstep : forall k, Z.of_nat k <= 255 - vol s ->
              playStatus (dynamicsN k s) = FADE_IN /\
              vol (dynamicsN k s) = vol s + Z.of_nat k /\
              (vol (dynamicsN k s) = 255 /\
               playStatus (dynamicsN (S k) s) = PLAYING /\
               vol (dynamicsN (S k) s) = 255
               \/ vol (dynamicsN k s) < 255 /\
                  vol (dynamicsN (S k) s) = vol (dynamicsN k s) + 1)).
    { intros k Hk. destruct (fade_in_ramp k s Hst Hv Hk) as (E1 & E2).
      split; [exact E1|]. split; [exact E2|].
      rewrite dynamicsN_succ.
      destruct (dynamics_fade_in (dynamicsN k s) E1) as [?|(? & _ & ?)];
        [unfold is_byte; lia|left; assumption|right; split; assumption]. }
    split.
    + intros k Hk. destruct (Hstep k Hk) as (E1 & E2 & [(E3 & _ & E4)|(_ & E3)]).
      * split; [exact E1|]. split; [exact E2|]. lia.
      * split; [exact E1|]. split; [exact E2|]. lia.
    + replace (Z.to_nat (256 - vol s)) with (S (Z.to_nat (255 - vol s))) by lia.
      destruct (Hstep (Z.to_nat (255 - vol s)) ltac:(lia))
        as (_ & E2 & [(_ & E3 & E4)|(E3 & _)]); [auto|lia].
  - split; [apply dynamics_fade_out; assumption|].
    assert (Hstep : forall k, Z.of_nat k <= vol s ->
              playStatus (dynamicsN k s) = FADE_OUT /\
              vol (dynamicsN k s) = vol s - Z.of_nat k /\
              (vol (dynamicsN k s) = 0 /\
               playStatus (dynamicsN (S k) s) = STOPPED /\
               vol (dynamicsN (S k) s) = 0
               \/ 0 < vol (dynamicsN k s) /\
                  vol (dynamicsN (S k) s) = vol (dynamicsN k s) - 1)).
    { intros k Hk. destruct (fade_out_ramp k s Hst Hv Hk) as (E1 & E2).
      split; [exact E1|]. split; [exact E2|].
      rewrite dynamicsN_succ.
      destruct (dynamics_fade_out (dynamicsN k s) E1) as [?|(? & _ & ?)];
        [unfold is_byte; lia|left; assumption|right; split; assumption]. }
    split.
    + intros k Hk. destruct (Hstep k Hk) as (E1 & E2 & [(E3 & _ & E4)|(_ & E3)]).
      * split; [exact E1|]. split; [exact E2|]. lia.
      * split; [exact E1|]. split; [exact E2|]. lia.
    + replace (Z.to_nat (vol s + 1)) with (S (Z.to_nat (vol s))) by lia.
      destruct (Hstep (Z.to_nat (vol s)) ltac:(lia))
        as (_ & E2 & [(_ & E3 & E4)|(E3 & _)]); [auto|lia].
Qed.

(** C8. [start()] takes [STOPPED] and [FADE_OUT] to [FADE_IN] and leaves
    a [PLAYING] synth as it is; [stop()] takes every state but [STOPPED]
    to [FADE_OUT] and leaves a [STOPPED] synth as it is. Neither touches
    anything but the play state. *)
Theorem start_stop_transitions (v : Z) (b : B) :
  start (mkSynth STOPPED v b) = mkSynth FADE_IN v b /\
  start (mkSynth FADE_OUT v b) = mkSynth FADE_IN v b /\
  start (mkSynth PLAYING v b) = mkSynth PLAYING v b /\
  stop (mkSynth FADE_IN v b) = mkSynth FADE_OUT v b /\
  stop (mkSynth PLAYING v b) = mkSynth FADE_OUT v b /\
  stop (mkSynth FADE_OUT v b) = mkSynth FADE_OUT v b /\
  stop (mkSynth STOPPED v b) = mkSynth STOPPED v b /\
  (forall s, playStatus s = PLAYING -> start s = s) /\
  (forall s, playStatus s = STOPPED -> stop s = s) /\
  (forall s, playStatus s <> PLAYING -> playStatus (start s) = FADE_IN) /\
  (forall s, playStatus s <> STOPPED -> playStatus (stop s) = FADE_OUT).
Proof.
  repeat split; try reflexivity.
  - intros s Hs. unfold start. rewrite Hs. reflexivity.
  - intros s Hs. unfold stop. rewrite Hs. reflexivity.
  - intros s Hs. unfold start. destruct (playStatus s); try reflexivity.
    contradiction.
  - intros s Hs. unfold stop. destruct (playStatus s); try reflexivity.
    contradiction.
Qed.

End Fades.

Lemma dynamics_fades_witness :
  playStatus (dynamicsN 3 (mkSynth FADE_IN 253 tt)) = PLAYING /\
  vol (dynamicsN 2 (mkSynth FADE_IN 253 tt)) = 255 /\
  playStatus (dynamicsN 3 (mkSynth FADE_OUT 2 tt)) = STOPPED /\
  vol (dynamicsN 2 (mkSynth FADE_OUT 2 tt)) = 0.
Proof.
  assert (Hin : is_byte (vol (mkSynth FADE_IN 253 tt)))
    by (unfold is_byte; cbn; lia).
  assert (Hout : is_byte (vol (mkSynth FADE_OUT 2 tt)))
    by (unfold is_byte; cbn; lia).
  destruct (dynamics_fades (mkSynth FADE_IN 253 tt) Hin) as [Hup _].
  destruct (dynamics_fades (mkSynth FADE_OUT 2 tt) Hout) as [_ Hdown].
  destruct (Hup eq_refl) as (_ & Hramp & Hend & _).
  destruct (Hdown eq_refl) as (_ & Hramp' & Hend' & _).
  split; [exact Hend|].
  split; [exact (proj1 (proj2 (Hramp 2%nat ltac:(cbn; lia))))|].
  split; [exact Hend'|].
  exact (proj1 (proj2 (Hramp' 2%nat ltac:(cbn; lia)))).
Defined.

(** *** The mix *)

(** The 16-bit [sum] never overflows on [char] samples, and the shifted
    sum fits a [char] again: the mix is exact. *)
Lemma mix_exact chan lead :
  is_char chan -> is_char lead ->
  mix chan lead = Z.shiftr (3 * chan + lead) 2 /\
  mix chan lead = (3 * chan + lead) / 4 /\
  is_char (mix chan lead).
Proof.
  unfold is_char. intros Hc Hl. unfold mix.
  rewrite (to_int_id chan) by lia.
  rewrite (to_int_id (chan * 3)) by lia.
  rewrite (to_int_id (chan * 3 + lead)) by lia.
  replace (chan * 3 + lead) with (3 * chan + lead) by lia.
  rewrite Z.shiftr_div_pow2 by lia. change (2 ^ 2) with 4.
  assert (Hr : -128 <= (3 * chan + lead) / 4 <= 127)
    by (Z.div_mod_to_equations; lia).
  rewrite to_char_id by exact Hr. auto.
Qed.

(** The mixing loop up to index [n]: the samples below [n] are mixed,
    the others untouched. *)
Lemma mix_loop leadbuf n bufL bufR :
  let out := fold_left (mixStep leadbuf) (seq 0 n) (bufL, bufR) in
  length (fst out) = length bufL /\ length (snd out) = length bufR /\
  forall i : nat,
    fst out !!! i = (if decide (i < n /\ i < length bufL)%nat
                     then mix (bufL !!! i) (leadbuf !!! i) else bufL !!! i) /\
    snd out !!! i = (if decide (i < n /\ i < length bufR)%nat
                     then mix (bufR !!! i) (leadbuf !!! i) else bufR !!! i).
Proof.
  induction n as [|n IH]; cbv zeta.
  - cbn. split; [reflexivity|]. split; [reflexivity|].
    intros i. split; (destruct (decide _); [lia|reflexivity]).
  - rewrite seq_S, fold_left_app. cbn [fold_left Nat.add]. cbv zeta in IH.
    destruct IH as (HL & HR & Hi).
    set (out := fold_left (mixStep leadbuf) (seq 0 n) (bufL, bufR)) in *.
    unfold mixStep. cbn [fst snd]. rewrite !length_insert.
    split; [exact HL|]. split; [exact HR|].
    intros i. rewrite !list_lookup_total_insert, HL, HR.
    destruct (Hi n) as (HnL & HnR). destruct (Hi i) as (HiL & HiR).
    rewrite HnL, HnR, HiL, HiR.
    split; repeat destruct (decide _); try lia; try reflexivity;
      destruct_and?; subst; reflexivity || lia.
Qed.

(** C9. Each sample of either channel that [output] hands on is
    [(3*droneChannel + leadChannel) >> 2] of the drone sample of that
    channel and the lead sample of the same tick, exactly: the sum does
    not overflow, the shift is the quotient by 4 rounded down, and the
    result fits the buffer. Drone 100 and lead 40 give 85. *)
Theorem output_mix_formula audioBufSz bufL bufR leadbuf (i : nat) :
  (i < audioBufSz)%nat ->
  length bufL = audioBufSz -> length bufR = audioBufSz ->
  Forall is_char bufL -> Forall is_char bufR -> is_char (leadbuf !!! i) ->
  let out := output audioBufSz (bufL, bufR) leadbuf in
  fst out !!! i = Z.shiftr (3 * (bufL !!! i) + leadbuf !!! i) 2 /\
  snd out !!! i = Z.shiftr (3 * (bufR !!! i) + leadbuf !!! i) 2 /\
  fst out !!! i = (3 * (bufL !!! i) + leadbuf !!! i) / 4 /\
  snd out !!! i = (3 * (bufR !!! i) + leadbuf !!! i) / 4 /\
  is_char (fst out !!! i) /\ is_char (snd out !!! i) /\
  mix 100 40 = 85.
Proof.
  intros Hi HL HR HcL HcR Hlead. cbv zeta. unfold output.
  destruct (mix_loop leadbuf audioBufSz bufL bufR) as (_ & _ & Hout).
  destruct (Hout i) as (EL & ER). rewrite EL, ER.
  destruct (decide _); [|lia]. destruct (decide _); [|lia].
  assert (HiL : is_char (bufL !!! i)).
  { apply (Forall_lookup_total_1 _ _ i) in HcL; [exact HcL|lia]. }
  assert (HiR : is_char (bufR !!! i)).
  { apply (Forall_lookup_total_1 _ _ i) in HcR; [exact HcR|lia]. }
  destruct (mix_exact (bufL !!! i) (leadbuf !!! i) HiL Hlead) as (A1 & A2 & A3).
  destruct (mix_exact (bufR !!! i) (leadbuf !!! i) HiR Hlead) as (B1 & B2 & B3).
  repeat split; try assumption; try apply A3; try apply B3.
Qed.

Lemma output_mix_formula_witness :
  fst (output 2 ([100; -7], [-128; 127]) [40; 5]) !!! 0%nat = 85 /\
  snd (output 2 ([100; -7], [-128; 127]) [40; 5]) !!! 0%nat = -86.
Proof.
  assert (HL : Forall is_char [100; -7])
    by (repeat constructor; unfold is_char; lia).
  assert (HR : Forall is_char [-128; 127])
    by (repeat constructor; unfold is_char; lia).
  assert (Hl : is_char ([40; 5] !!! 0%nat)) by (unfold is_char; cbn; lia).
  destruct (output_mix_formula 2 [100; -7] [-128; 127] [40; 5] 0
              ltac:(lia) eq_refl eq_refl HL HR Hl)
    as (E1 & E2 & _).
  split; [exact E1|exact E2].
Defined.

End SynthFacts.

(** ** The amplitude invariant *)

Module OscInvariant.

Import Osc OscFacts.

Lemma consistent_amp s :
  consistent s ->
  31 <= ampOsc s <= 127 /\ numOsc s * ampOsc s <= 127 /\
  to_char (ampOsc s) = ampOsc s /\ to_char (- ampOsc s) = - ampOsc s.
Proof.
  intros (_ & HN & _ & Ha & _). unfold MAX_OSC in HN.
  assert (Hr : 31 <= ampOsc s <= 127 /\ numOsc s * ampOsc s <= 127).
  { rewrite Ha. split.
    - split; [apply Z.div_le_lower_bound; lia|apply Z.div_le_upper_bound; lia].
    - apply Z.mul_div_le. lia. }
  destruct Hr as (Hr & Hm). repeat split; try lia.
  - apply to_char_id. unfold is_char. lia.
  - apply to_char_id. unfold is_char. lia.
Qed.

Lemma calcSteps_bytes pw P :
  is_byte (fst (calcSteps pw P)) /\ is_byte (snd (calcSteps pw P)).
Proof.
  unfold calcSteps. destruct (255 <? _); cbn [fst snd];
    rewrite !Word_lsb_mod; split; apply to_byte_range.
Qed.

Lemma setSteps_consistent s t n0 n1 :
  consistent s -> (t < MAX_OSC)%nat -> is_byte n0 -> is_byte n1 ->
  consistent (setSteps s t n0 n1).
Proof.
  intros Hc Ht H0 H1.
  destruct (consistent_amp s Hc) as (_ & _ & Hp & Hm).
  destruct Hc as (Hs & HN & Hcur & Ha & Hb & Hv).
  pose proof Hs as (L1 & L2 & L3 & L4 & L5).
  split; [apply setSteps_sized, Hs|].
  split; [exact HN|]. split; [exact Hcur|]. split; [exact Ha|].
  change (numOsc (setSteps s t n0 n1)) with (numOsc s).
  change (ampOsc (setSteps s t n0 n1)) with (ampOsc s).
  change (edgLen (setSteps s t n0 n1)) with (<[t := (n0, n1)]> (edgLen s)).
  change (edgVal (setSteps s t n0 n1)) with
    (<[t := (fst (edgVal s !!! t),
             if negb (n0 =? 0) && negb (n1 =? 0)
             then to_char (- ampOsc s) else to_char (ampOsc s))]> (edgVal s)).
  split.
  - intros i Hi. destruct (decide (i = t)) as [->|Hne].
    + rewrite list_lookup_total_insert_eq by lia. auto.
    + rewrite list_lookup_total_insert_ne by auto. apply Hb, Hi.
  - intros i Hi. destruct (decide (i = t)) as [->|Hne].
    + rewrite !list_lookup_total_insert_eq by lia.
      rewrite (Hv t Hi), Hp, Hm. reflexivity.
    + rewrite !list_lookup_total_insert_ne by auto. apply Hv, Hi.
Qed.

Lemma calcEdges_consistent s t P :
  consistent s -> (t < MAX_OSC)%nat -> consistent (calcEdges s t P).
Proof.
  intros Hc Ht. unfold calcEdges. cbv zeta.
  pose proof (calcSteps_bytes
    (pW (if P <=? 1 then setSteps s t 0 0 else s)) P) as (B0 & B1).
  apply setSteps_consistent; try assumption.
  destruct (P <=? 1); [|exact Hc].
  apply setSteps_consistent; try assumption; unfold is_byte; lia.
Qed.

(** The invariant does not read the notes, the edge states, the pulse
    width or the freeze flag. *)
Lemma consistent_ext s s' :
  consistent s -> sized s' ->
  (numOsc s', curOsc s', ampOsc s', edgLen s', edgVal s')
  = (numOsc s, curOsc s, ampOsc s, edgLen s, edgVal s) ->
  consistent s'.
Proof.
  intros (_ & HN & Hcur & Ha & Hb & Hv) Hs' E.
  injection E as E1 E2 E3 E4 E5. unfold consistent.
  rewrite E1, E2, E3, E4, E5. auto 10.
Qed.

Lemma lockFrame_all s s' :
  lockFrame s' = lockFrame s ->
  periods s' = periods s /\ numNotes s' = numNotes s /\
  numOsc s' = numOsc s /\ curOsc s' = curOsc s /\ ampOsc s' = ampOsc s /\
  edgLen s' = edgLen s /\ edgVal s' = edgVal s /\ note s' = note s /\
  pW s' = pW s /\ freeze s' = freeze s.
Proof.
  unfold lockFrame. intros H. injection H. intros. repeat split; assumption.
Qed.

Lemma lockFrame_consistent s s' :
  consistent s -> sized s' -> lockFrame s' = lockFrame s -> consistent s'.
Proof.
  intros Hc Hs' E. apply (consistent_ext s s' Hc Hs').
  unfold lockFrame in E. injection E. intros. congruence.
Qed.

Lemma setSteps_edgVal_other s t j n0 n1 :
  j <> t -> edgVal (setSteps s t n0 n1) !!! j = edgVal s !!! j.
Proof.
  intros Hne. unfold setSteps. cbn.
  apply list_lookup_total_insert_ne. auto.
Qed.

Lemma calcEdges_edgVal_other s t j P :
  j <> t -> edgVal (calcEdges s t P) !!! j = edgVal s !!! j.
Proof.
  intros Hne. unfold calcEdges. cbv zeta.
  rewrite setSteps_edgVal_other by exact Hne.
  destruct (P <=? 1); [|reflexivity].
  apply setSteps_edgVal_other, Hne.
Qed.

Lemma calcEdges_all_scalars s t P : scalars (calcEdges s t P) = scalars s.
Proof. unfold calcEdges. destruct (P <=? 1); reflexivity. Qed.

(** [setNote], when it returns, keeps the invariant and the scalar
    members, and touches slot [t] only. *)
Lemma setNote_keeps flash fuel s t n s' :
  consistent s -> (t < MAX_OSC)%nat ->
  setNote flash fuel s t n = Some s' ->
  consistent s' /\ scalars s' = scalars s /\
  forall j, j <> t -> slotView s' j = slotView s j.
Proof.
  intros Hc Ht E. pose proof Hc as (Hs & _).
  pose proof Hs as (L1 & L2 & L3 & L4 & L5).
  unfold setNote in E. destruct (freeze s) eqn:Hf.
  { injection E as <-. auto. }
  destruct (Z.eqb_spec n NoNote) as [->|Hn].
  { injection E as <-. split; [|split; [reflexivity|]].
    - set (s1 := set_edgIdx s (<[t := 0]> (edgIdx s))).
      assert (Hc1 : consistent s1).
      { apply (consistent_ext s); [exact Hc| |reflexivity].
        unfold sized, s1. cbn. rewrite length_insert. auto. }
      pose proof (setSteps_consistent s1 t 0 0 Hc1 Ht
                    ltac:(unfold is_byte; lia) ltac:(unfold is_byte; lia)) as Hc2.
      apply (consistent_ext _ _ Hc2); [|reflexivity].
      destruct Hc2 as (Hs2 & _). destruct Hs2 as (M1 & M2 & M3 & M4 & M5).
      unfold sized. cbn in *. rewrite !length_insert in *. auto.
    - intros j Hj. unfold slotView, phase. cbn.
      rewrite !list_lookup_total_insert_ne by auto. reflexivity. }
  destruct (wrapNote fuel (numNotes s) n) as [m|] eqn:Hw; [|discriminate].
  cbv zeta in E. injection E as <-.
  set (P := pgm_read_word_near _ _).
  set (s1 := set_note s (<[t := m]> (note s))).
  assert (Hc1 : consistent s1).
  { apply (consistent_ext s); [exact Hc| |reflexivity].
    unfold sized, s1. cbn. rewrite length_insert. auto. }
  pose proof (calcEdges_consistent s1 t P Hc1 Ht) as Hc2.
  pose proof Hc2 as (Hs2 & _).
  destruct (phaseLock_fold t (slots (numOsc (calcEdges s1 t P)))
              (calcEdges s1 t P) Ht Hs2) as (Hs' & Hfr & Hoth & _).
  cbv zeta in *. set (s' := fold_left _ _ _) in *.
  split; [apply (lockFrame_consistent _ _ Hc2 Hs' Hfr)|].
  destruct (lockFrame_all _ _ Hfr)
    as (F1 & F2 & F3 & F4 & F5 & F6 & F7 & F8 & F9 & F10).
  split.
  - unfold scalars. rewrite F1, F2, F3, F4, F5, F9, F10.
    apply (calcEdges_all_scalars s1 t P).
  - intros j Hj. unfold slotView.
    rewrite (Hoth j Hj), F6, F7, F8, calcEdges_phase, calcEdges_note.
    rewrite calcEdges_other by auto.
    rewrite calcEdges_edgVal_other by auto.
    unfold s1. cbn. rewrite list_lookup_total_insert_ne by auto. reflexivity.
Qed.

Lemma setAmp_slot s i :
  (i < length (edgVal s))%nat ->
  edgVal (setAmp s i) !!! i =
  (to_char (ampOsc s),
   if negb (fst (edgLen s !!! i) =? 0) && negb (snd (edgLen s !!! i) =? 0)
   then to_char (- ampOsc s) else to_char (ampOsc s)).
Proof.
  intros Hi. unfold setAmp. cbn.
  rewrite !list_lookup_total_insert_eq by (rewrite ?length_insert; lia).
  reflexivity.
Qed.

Lemma setAmp_other s i j :
  j <> i -> edgVal (setAmp s i) !!! j = edgVal s !!! j.
Proof.
  intros Hne. unfold setAmp. cbn.
  rewrite !list_lookup_total_insert_ne by auto. reflexivity.
Qed.

(** The amplitude loop of [setNumOsc]: every visited slot gets the
    amplitude as high value and the low value of its edge lengths. *)
Lemma setAmp_fold l s :
  NoDup l -> (forall i, i ∈ l -> (i < MAX_OSC)%nat) -> sized s ->
  let s' := fold_left setAmp l s in
  sized s' /\ frame s' = frame s /\ edgLen s' = edgLen s /\
  forall i, edgVal s' !!! i =
            if decide (i ∈ l)
            then (to_char (ampOsc s),
                  if negb (fst (edgLen s !!! i) =? 0)
                     && negb (snd (edgLen s !!! i) =? 0)
                  then to_char (- ampOsc s) else to_char (ampOsc s))
            else edgVal s !!! i.
Proof.
  intros Hnd Hin Hs. induction l as [|j l IH] using rev_ind; cbv zeta.
  - cbn. split; [exact Hs|]. split; [reflexivity|]. split; [reflexivity|].
    intros i. destruct (decide _) as [Hi|_]; [inversion Hi|reflexivity].
  - apply NoDup_app in Hnd as (Hnd & Hj & _).
    rewrite fold_left_app. cbn [fold_left]. cbv zeta in IH.
    destruct IH as (Hs' & Hfr & Hlen & Hval);
      [exact Hnd|intros i Hi; apply Hin, elem_of_app; auto|].
    set (s1 := fold_left setAmp l s) in *.
    assert (Hjl : j ∉ l).
    { intros Hjl. apply (Hj j Hjl), list_elem_of_here. }
    assert (Hjt : (j < MAX_OSC)%nat).
    { apply Hin, elem_of_app. right. apply list_elem_of_here. }
    assert (Hamp : ampOsc s1 = ampOsc s).
    { unfold frame in Hfr. injection Hfr. auto. }
    destruct Hs' as (L1 & L2 & L3 & L4 & L5).
    split; [unfold sized, setAmp; cbn; rewrite !length_insert; auto|].
    split; [exact Hfr|]. split; [exact Hlen|].
    intros i. destruct (decide (i = j)) as [->|Hij].
    + rewrite setAmp_slot by lia. rewrite Hamp, Hlen.
      destruct (decide _) as [_|Hn]; [reflexivity|].
      exfalso. apply Hn, elem_of_app. right. apply list_elem_of_here.
    + rewrite setAmp_other by auto. rewrite (Hval i).
      destruct (decide (i ∈ l)) as [Hil|Hil];
        destruct (decide (i ∈ l ++ [j])) as [Hil'|Hil']; try reflexivity.
      * exfalso. apply Hil', elem_of_app. auto.
      * exfalso. apply elem_of_app in Hil' as [?|Hx]; [contradiction|].
        apply list_elem_of_singleton in Hx. contradiction.
Qed.

(** [setNumOsc] sets the invariant up, whatever the amplitudes were. *)
Lemma setNumOsc_sets_up s n :
  sized s -> is_byte (curOsc s) -> is_byte n ->
  (forall i : nat, (i < MAX_OSC)%nat ->
     is_byte (fst (edgLen s !!! i)) /\ is_byte (snd (edgLen s !!! i))) ->
  consistent (setNumOsc s n) /\
  numOsc (setNumOsc s n) = Z.max 1 (Z.min 4 n) /\
  curOsc (setNumOsc s n) = Z.min (curOsc s) (Z.max 1 (Z.min 4 n) - 1) /\
  (edgLen (setNumOsc s n), edgIdx (setNumOsc s n), edgeDC (setNumOsc s n),
   note (setNumOsc s n), pW (setNumOsc s n), freeze (setNumOsc s n))
  = (edgLen s, edgIdx s, edgeDC s, note s, pW s, freeze s).
Proof.
  intros Hs Hcur Hn Hb. unfold is_byte in Hcur, Hn. unfold setNumOsc.
  change (Z.of_nat MAX_OSC) with 4.
  set (N := if 4 <? (if n =? 0 then 1 else n) then 4
            else if n =? 0 then 1 else n).
  assert (HN : N = Z.max 1 (Z.min 4 n)).
  { unfold N. destruct (Z.eqb_spec n 0) as [->|Hn0].
    - reflexivity.
    - destruct (Z.ltb_spec 4 n); lia. }
  assert (HN' : 1 <= N <= 4) by lia. clearbody N. cbv zeta.
  change (numOsc (set_numOsc s N)) with N.
  change (curOsc (set_numOsc s N)) with (curOsc s).
  set (s2 := if N <=? curOsc s
             then set_curOsc (set_numOsc s N) (to_byte (N - 1))
             else set_numOsc s N).
  assert (H2 : numOsc s2 = N /\ curOsc s2 = Z.min (curOsc s) (N - 1) /\
               sized s2 /\ edgLen s2 = edgLen s /\
               (edgIdx s2, edgeDC s2, note s2, pW s2, freeze s2)
               = (edgIdx s, edgeDC s, note s, pW s, freeze s)).
  { unfold s2. destruct (Z.leb_spec N (curOsc s)); cbn.
    - rewrite to_byte_id by (unfold is_byte; lia). repeat split; try apply Hs. lia.
    - repeat split; try apply Hs. lia. }
  clearbody s2. destruct H2 as (E1 & E2 & Hs2 & E3 & E4).
  set (s3 := set_ampOsc s2 (127 / numOsc s2)).
  assert (Hs3 : sized s3) by exact Hs2.
  change (numOsc s3) with (numOsc s2). rewrite E1.
  destruct (setAmp_fold (slots N) s3) as (Hs' & Hfr & Hlen & Hval);
    [apply NoDup_seq| |exact Hs3|].
  { intros k Hk. apply elem_of_slots in Hk. unfold MAX_OSC. lia. }
  cbv zeta in *. set (s' := fold_left setAmp (slots N) s3) in *.
  unfold frame in Hfr. injection Hfr as F1 F2 F3 F4 F5 F6 F7 F8 F9 F10.
  change (ampOsc s3) with (127 / numOsc s2) in Hval.
  change (edgLen s3) with (edgLen s2) in Hval, Hlen.
  rewrite E1 in F3, F5, Hval. rewrite E3 in Hval, Hlen. rewrite E2 in F4.
  assert (Ha : 31 <= 127 / N <= 127).
  { split; [apply Z.div_le_lower_bound; lia|apply Z.div_le_upper_bound; lia]. }
  split; [|split; [|split]].
  - split; [exact Hs'|]. rewrite F3, F4, F5, Hlen.
    split; [exact HN'|]. split; [lia|]. split; [reflexivity|].
    split; [exact Hb|].
    intros i Hi. rewrite (Hval i).
    destruct (decide _) as [_|Hni]; [|exfalso; apply Hni, elem_of_slots, Hi].
    rewrite !to_char_id by (unfold is_char; lia). reflexivity.
  - rewrite F3. lia.
  - rewrite F4. lia.
  - rewrite Hlen, F6, F7, F8, F9, F10.
    injection E4 as -> -> -> -> ->. reflexivity.
Qed.

Lemma setCurOsc_consistent s ith :
  consistent s -> is_byte ith ->
  consistent (setCurOsc s ith) /\
  curOsc (setCurOsc s ith) = Z.min ith (numOsc s - 1).
Proof.
  intros Hc Hi. pose proof Hc as (Hs & HN & Hcur & Ha & Hb & Hv).
  unfold is_byte, MAX_OSC in *. unfold setCurOsc. cbv zeta.
  assert (E : (if numOsc s <=? ith then to_byte (numOsc s - 1) else ith)
              = Z.min ith (numOsc s - 1)).
  { destruct (Z.leb_spec (numOsc s) ith); [|lia].
    rewrite to_byte_id by (unfold is_byte; lia). lia. }
  rewrite E. split; [|reflexivity].
  split; [exact Hs|]. cbn. split; [exact HN|]. split; [lia|]. auto.
Qed.

(** The loop of [setPW] keeps the invariant and everything but the edge
    lengths and values. *)
Lemma calcEdges_loop_keeps l s :
  (forall i, i ∈ l -> (i < MAX_OSC)%nat) -> consistent s ->
  let s' := fold_left
    (fun s i => calcEdges s i (to_word (fst (edgLen s !!! i) + snd (edgLen s !!! i))))
    l s in
  consistent s' /\ frame s' = frame s.
Proof.
  revert s. induction l as [|i l IH]; intros s Hin Hc; cbv zeta.
  - auto.
  - cbn [fold_left].
    destruct (IH (calcEdges s i (to_word (fst (edgLen s !!! i) + snd (edgLen s !!! i)))))
      as (Hc' & Hfr).
    + intros k Hk. apply Hin, list_elem_of_further, Hk.
    + apply calcEdges_consistent; [exact Hc|]. apply Hin, list_elem_of_here.
    + cbv zeta in *. split; [exact Hc'|]. rewrite Hfr. apply calcEdges_frame.
Qed.

Lemma setPW_keeps s x :
  consistent s ->
  consistent (setPW s x) /\
  pW (setPW s x) = Z.max 1 (Z.min 128 x) /\
  (periods (setPW s x), numNotes (setPW s x), numOsc (setPW s x),
   curOsc (setPW s x), ampOsc (setPW s x), edgIdx (setPW s x),
   edgeDC (setPW s x), note (setPW s x), freeze (setPW s x))
  = (periods s, numNotes s, numOsc s, curOsc s, ampOsc s, edgIdx s,
     edgeDC s, note s, freeze s).
Proof.
  intros Hc. unfold setPW. cbv zeta.
  set (pw := if 128 <? (if x <? 1 then 1 else x) then 128
             else if x <? 1 then 1 else x).
  assert (Hpw : pw = Z.max 1 (Z.min 128 x)).
  { unfold pw. destruct (Z.ltb_spec x 1).
    - change (128 <? 1) with false. cbv iota. lia.
    - destruct (Z.ltb_spec 128 x); lia. }
  clearbody pw.
  assert (Hc1 : consistent (set_pW s pw)).
  { apply (consistent_ext s); [exact Hc|apply Hc|reflexivity]. }
  set (s' := fold_left _ _ _).
  assert (Hloop : consistent s' /\ frame s' = frame (set_pW s pw)).
  { apply calcEdges_loop_keeps; [|exact Hc1].
    intros k Hk. apply elem_of_slots in Hk. destruct Hc1 as (_ & HN & _). lia. }
  clearbody s'. destruct Hloop as (Hc' & Hfr). split; [exact Hc'|].
  unfold frame in Hfr. injection Hfr as F1 F2 F3 F4 F5 F6 F7 F8 F9 F10.
  split; [rewrite F9; exact Hpw|].
  rewrite F1, F2, F3, F4, F5, F6, F7, F8, F10. reflexivity.
Qed.

Lemma tick_consistent s : consistent s -> consistent (fst (tick s)).
Proof.
  intros Hc. pose proof Hc as (Hs & _).
  apply (lockFrame_consistent s); [exact Hc|apply tick_sized, Hs|].
  apply tick_lockFrame, Hs.
Qed.

Lemma setPhase_lockFrame fuel s t ph s' :
  sized s -> setPhase fuel s t ph = Some s' ->
  sized s' /\ lockFrame s' = lockFrame s.
Proof.
  intros (L1 & L2 & L3 & L4 & L5) E. unfold setPhase in E. cbv zeta in E.
  destruct (normPhase _ _ _); [|discriminate].
  destruct (_ <? _); injection E as <-; (split; [|reflexivity]);
    unfold sized; cbn; rewrite !length_insert; auto.
Qed.

(** *** Exact samples *)

Lemma contribution_bound s i :
  consistent s -> Z.of_nat i < numOsc s ->
  contribution s i = ampOsc s \/ contribution s i = - ampOsc s.
Proof.
  intros (_ & _ & _ & _ & _ & Hv) Hi. unfold contribution, edge.
  rewrite (Hv i Hi). cbn [fst snd]. unfold lowValue.
  destruct (_ =? 0); [auto|]. destruct (_ && _); auto.
Qed.

(** A sum kept in a [char] is the exact sum as long as the addends leave
    it room. *)
Lemma char_sum_exact (f : nat -> Z) a l acc :
  0 <= a -> (forall t, t ∈ l -> - a <= f t <= a) ->
  Z.abs acc + a * Z.of_nat (length l) <= 127 ->
  fold_left (fun x t => to_char (x + f t)) l acc = acc + sumZ (map f l) /\
  Z.abs (sumZ (map f l)) <= a * Z.of_nat (length l).
Proof.
  intros Ha. revert acc. induction l as [|t l IH]; intros acc Hf Hb.
  - cbn. split; lia.
  - cbn [fold_left map length sumZ foldr] in *.
    pose proof (Hf t (list_elem_of_here _ _)) as Ht.
    rewrite (to_char_id (acc + f t)) by (unfold is_char; lia).
    destruct (IH (acc + f t)) as (E & B).
    + intros u Hu. apply Hf, list_elem_of_further, Hu.
    + lia.
    + fold (sumZ (map f l)) in *. split; lia.
Qed.

(** The sample of a tick is the exact sum of what the active slots
    contribute, each plus or minus the amplitude; it never wraps. *)
Lemma tick_exact s :
  consistent s ->
  snd (tick s) = sumZ (map (contribution (fst (tick s))) (slots (numOsc s))) /\
  Z.abs (snd (tick s)) <= numOsc s * ampOsc s /\
  - 127 <= snd (tick s) <= 127.
Proof.
  intros Hc. pose proof (tick_consistent s Hc) as Hc'.
  pose proof Hc as (Hs & HN & _).
  destruct (lockFrame_all _ _ (tick_lockFrame s Hs))
    as (_ & _ & EN & _ & EA & _).
  destruct (consistent_amp s Hc) as (Ha & Hm & _).
  rewrite (tick_outVal s Hs). unfold outValOf. rewrite EN.
  destruct (char_sum_exact (contribution (fst (tick s))) (ampOsc s)
              (slots (numOsc s)) 0) as (E & B).
  - lia.
  - intros t Ht. apply elem_of_slots in Ht. rewrite <- EN in Ht.
    destruct (contribution_bound _ t Hc' Ht) as [-> | ->]; rewrite EA; lia.
  - unfold slots. rewrite length_seq. rewrite Z2Nat.id by lia.
    change (Z.abs 0) with 0. rewrite Z.add_0_l, Z.mul_comm. exact Hm.
  - rewrite E.
    change (length (slots (numOsc s)))
      with (length (seq 0 (Z.to_nat (numOsc s)))) in B.
    rewrite length_seq, Z2Nat.id in B by lia.
    rewrite Z.add_0_l. split; [reflexivity|]. split; lia.
Qed.

Lemma output_unfold icnt s :
  output (S icnt) s =
  (fst (output icnt (fst (tick s))), snd (tick s) :: snd (output icnt (fst (tick s)))).
Proof.
  cbn [output]. destruct (tick s) as [s1 v]. cbn [fst snd].
  destruct (output icnt s1). reflexivity.
Qed.

Lemma output_bounded icnt s :
  consistent s ->
  consistent (fst (output icnt s)) /\ fst (output icnt s) = ticks icnt s /\
  length (snd (output icnt s)) = icnt /\
  Forall (fun v => - 127 <= v <= 127) (snd (output icnt s)).
Proof.
  revert s. induction icnt as [|icnt IH]; intros s Hc.
  - cbn. auto.
  - rewrite output_unfold. cbn [fst snd ticks length].
    destruct (IH (fst (tick s)) (tick_consistent s Hc)) as (H1 & H2 & H3 & H4).
    split; [exact H1|]. split; [exact H2|]. split; [lia|].
    constructor; [apply tick_exact, Hc|exact H4].
Qed.

(** *** Reset *)

Lemma setNote_NoNote_step flash fuel s t :
  consistent s -> freeze s = false -> (t < MAX_OSC)%nat ->
  exists s',
    setNote flash fuel s t NoNote = Some s' /\ consistent s' /\
    scalars s' = scalars s /\ edgeDC s' = edgeDC s /\
    note s' !!! t = NoNote /\ edgLen s' !!! t = (0, 0) /\
    edgIdx s' !!! t = 0 /\
    edgVal s' !!! t = (fst (edgVal s !!! t), ampOsc s) /\
    forall j, j <> t -> slotView s' j = slotView s j.
Proof.
  intros Hc Hf Ht. pose proof Hc as ((L1 & L2 & L3 & L4 & L5) & _).
  destruct (consistent_amp s Hc) as (_ & _ & Hp & _).
  eexists. split; [apply setNote_NoNote_eq, Hf|].
  destruct (setNote_keeps flash fuel s t NoNote _ Hc Ht
              (setNote_NoNote_eq flash fuel s t Hf)) as (Hc' & Hsc & Hoth).
  split; [exact Hc'|]. split; [exact Hsc|]. split; [reflexivity|].
  cbn. rewrite !list_lookup_total_insert_eq by lia. rewrite Hp.
  repeat split. exact Hoth.
Qed.

Lemma slots_MAX_OSC : slots (Z.of_nat MAX_OSC) = [0; 1; 2; 3]%nat.
Proof. reflexivity. Qed.

(** The reset brings a section with any contents to one known state:
    one oscillator, all four slots silent. *)
Lemma reset_known flash s :
  sized s -> is_byte (curOsc s) ->
  (forall i : nat, (i < MAX_OSC)%nat ->
     is_byte (fst (edgLen s !!! i)) /\ is_byte (snd (edgLen s !!! i))) ->
  exists s',
    charEv_reset flash s = Some s' /\ consistent s' /\
    scalars s' = (periods s, numNotes s, 1, 0, 127, 128, false) /\
    edgeDC s' = edgeDC s /\
    edgVal s' !!! 0%nat = (127, 127) /\
    forall i : nat, (i < MAX_OSC)%nat ->
      note s' !!! i = NoNote /\ edgLen s' !!! i = (0, 0) /\
      edgIdx s' !!! i = 0 /\ snd (edgVal s' !!! i) = 127.
Proof.
  intros Hs Hcur Hb. unfold charEv_reset. cbv zeta.
  set (s2 := set_pW (set_freeze s false) 128).
  destruct (setNumOsc_sets_up s2 1) as (Hc3 & EN & EC & Earr);
    [exact Hs|exact Hcur|unfold is_byte; lia|exact Hb|].
  set (s3 := setNumOsc s2 1) in *.
  change (Z.max 1 (Z.min 4 1)) with 1 in EN, EC.
  change (curOsc s2) with (curOsc s) in EC.
  assert (EC' : curOsc s3 = 0) by (unfold is_byte in Hcur; lia).
  injection Earr as A1 A2 A3 A4 A5 A6.
  change (pW s2) with 128 in A5. change (freeze s2) with false in A6.
  assert (EA : ampOsc s3 = 127).
  { destruct Hc3 as (_ & _ & _ & Ha & _). rewrite Ha, EN. reflexivity. }
  assert (Esc : scalars s3 = (periods s, numNotes s, 1, 0, 127, 128, false)).
  { unfold scalars. rewrite EN, EC', EA, A5, A6.
    assert (Hfr : periods s3 = periods s /\ numNotes s3 = numNotes s).
    { unfold s3, setNumOsc. cbv zeta.
      set (a := set_ampOsc _ _).
      destruct (setAmp_fold (slots (numOsc a)) a) as (_ & Hfr & _).
      - apply NoDup_seq.
      - intros k Hk. apply elem_of_slots in Hk.
        assert (numOsc a = 1) as Ha1; [|rewrite Ha1 in Hk; unfold MAX_OSC; lia].
        unfold a. change (Z.of_nat MAX_OSC) with 4. cbn.
        destruct (1 <=? curOsc s); reflexivity.
      - unfold a. change (Z.of_nat MAX_OSC) with 4. cbn.
        destruct (1 <=? curOsc s); exact Hs.
      - cbv zeta in Hfr. unfold frame in Hfr. injection Hfr. intros.
        split; [etransitivity; [eassumption|]|etransitivity; [eassumption|]];
          unfold a; change (Z.of_nat MAX_OSC) with 4; cbn;
          destruct (1 <=? curOsc s); reflexivity. }
    destruct Hfr as (-> & ->). reflexivity. }
  assert (Ev0 : edgVal s3 !!! 0%nat = (127, lowValue 127 (edgLen s3 !!! 0%nat))).
  { destruct Hc3 as (_ & _ & _ & _ & _ & Hv). rewrite <- EA. apply Hv. lia. }
  rewrite slots_MAX_OSC. cbn [fold_left].
  assert (Hf3 : freeze s3 = false) by exact A6.
  destruct (setNote_NoNote_step flash 0 s3 0 Hc3 Hf3 ltac:(unfold MAX_OSC; lia))
    as (t0 & E0 & C0 & S0 & D0 & N0 & Len0 & I0 & V0 & O0).
  rewrite E0.
  assert (Hf0 : freeze t0 = false).
  { unfold scalars in S0. injection S0. intros. congruence. }
  destruct (setNote_NoNote_step flash 0 t0 1 C0 Hf0 ltac:(unfold MAX_OSC; lia))
    as (t1 & E1 & C1 & S1 & D1 & N1 & Len1 & I1 & V1 & O1).
  rewrite E1.
  assert (Hf1 : freeze t1 = false).
  { unfold scalars in S1. injection S1. intros. congruence. }
  destruct (setNote_NoNote_step flash 0 t1 2 C1 Hf1 ltac:(unfold MAX_OSC; lia))
    as (t2 & E2 & C2 & S2 & D2 & N2 & Len2 & I2 & V2 & O2).
  rewrite E2.
  assert (Hf2 : freeze t2 = false).
  { unfold scalars in S2. injection S2. intros. congruence. }
  destruct (setNote_NoNote_step flash 0 t2 3 C2 Hf2 ltac:(unfold MAX_OSC; lia))
    as (t3 & E3 & C3 & S3 & D3 & N3 & Len3 & I3 & V3 & O3).
  rewrite E3.
  assert (Amp : ampOsc t0 = 127 /\ ampOsc t1 = 127 /\ ampOsc t2 = 127).
  { unfold scalars in S0, S1, S2.
    injection S0. injection S1. injection S2. intros. repeat split; congruence. }
  destruct Amp as (Am0 & Am1 & Am2).
  exists t3. split; [reflexivity|]. split; [exact C3|].
  split; [congruence|]. split; [congruence|].
  assert (View : forall (a b : DroneOscSection) j,
            slotView a j = slotView b j ->
            note a !!! j = note b !!! j /\ edgLen a !!! j = edgLen b !!! j /\
            edgVal a !!! j = edgVal b !!! j /\
            edgIdx a !!! j = edgIdx b !!! j).
  { intros a b j Hv. unfold slotView, phase in Hv. injection Hv. auto. }
  split.
  - destruct (View _ _ _ (O3 0%nat ltac:(lia))) as (_ & _ & -> & _).
    destruct (View _ _ _ (O2 0%nat ltac:(lia))) as (_ & _ & -> & _).
    destruct (View _ _ _ (O1 0%nat ltac:(lia))) as (_ & _ & -> & _).
    rewrite V0, Ev0, EA. reflexivity.
  - intros i Hi. unfold MAX_OSC in Hi.
    destruct i as [|[|[|[|i]]]]; [| | | |lia].
    + destruct (View _ _ _ (O3 0%nat ltac:(lia))) as (-> & -> & -> & ->).
      destruct (View _ _ _ (O2 0%nat ltac:(lia))) as (-> & -> & -> & ->).
      destruct (View _ _ _ (O1 0%nat ltac:(lia))) as (-> & -> & -> & ->).
      rewrite N0, Len0, I0, V0, EA. auto.
    + destruct (View _ _ _ (O3 1%nat ltac:(lia))) as (-> & -> & -> & ->).
      destruct (View _ _ _ (O2 1%nat ltac:(lia))) as (-> & -> & -> & ->).
      rewrite N1, Len1, I1, V1, Am0. auto.
    + destruct (View _ _ _ (O3 2%nat ltac:(lia))) as (-> & -> & -> & ->).
      rewrite N2, Len2, I2, V2, Am1. auto.
    + rewrite N3, Len3, I3, V3, Am2. auto.
Qed.

(** *** Runs of commands *)

Lemma consistent_curOsc s : consistent s -> (Z.to_nat (curOsc s) < MAX_OSC)%nat.
Proof. intros (_ & HN & Hcur & _). unfold MAX_OSC in *. lia. Qed.

Lemma consistent_bytes s :
  consistent s ->
  sized s /\ is_byte (curOsc s) /\
  forall i : nat, (i < MAX_OSC)%nat ->
    is_byte (fst (edgLen s !!! i)) /\ is_byte (snd (edgLen s !!! i)).
Proof.
  intros (Hs & HN & Hcur & _ & Hb & _). unfold MAX_OSC, is_byte in *.
  split; [exact Hs|]. split; [lia|exact Hb].
Qed.

Lemma charEv_consistent flash fuel s c s' :
  consistent s -> charEv flash fuel s c = Some s' -> consistent s'.
Proof.
  intros Hc E. destruct (consistent_bytes s Hc) as (Hs & Hcur & Hb).
  destruct c as [ith|inp|inp|inp|inp| |]; cbn [charEv] in E.
  - injection E as <-. apply setCurOsc_consistent; [exact Hc|apply to_byte_range].
  - apply (setNote_keeps _ _ _ _ _ _ Hc (consistent_curOsc s Hc) E).
  - destruct (0 <=? inp); [|injection E as <-; exact Hc].
    destruct (setPhase_lockFrame _ _ _ _ _ Hs E) as (Hs' & Hfr).
    apply (lockFrame_consistent s s' Hc Hs' Hfr).
  - injection E as <-.
    apply setNumOsc_sets_up; [exact Hs|exact Hcur|apply to_byte_range|exact Hb].
  - injection E as <-. apply setPW_keeps, Hc.
  - destruct (reset_known flash s Hs Hcur Hb) as (r & Er & Hr & _).
    congruence.
  - injection E as <-. apply tick_consistent, Hc.
Qed.

Lemma run_consistent flash fuel cs s s' :
  consistent s -> run flash fuel s cs = Some s' -> consistent s'.
Proof.
  revert s. induction cs as [|c cs IH]; intros s Hc E; cbn [run] in E.
  - injection E as <-. exact Hc.
  - destruct (charEv flash fuel s c) as [s1|] eqn:E1; [|discriminate].
    apply (IH s1); [|exact E].
    apply (charEv_consistent _ _ _ _ _ Hc E1).
Qed.

(** *** The waveform of a slot *)

Lemma edgeStep_edgeNext s t :
  (t < MAX_OSC)%nat -> sized s ->
  phase (edgeStep s t) t = edgeNext (edgLen s !!! t) (phase s t).
Proof. intros Ht Hs. exact (edgeStep_phase s t Ht Hs). Qed.

(** In the inner loop of [output] a visited slot takes one step of its
    own edge state machine. *)
Lemma oscStep_fold_slot l s acc t :
  NoDup l -> t ∈ l -> (t < MAX_OSC)%nat -> sized s ->
  phase (fst (fold_left oscStep l (s, acc))) t
  = edgeNext (edgLen s !!! t) (phase s t).
Proof.
  intros Hnd Hin Ht Hs. induction l as [|j l IH] using rev_ind.
  - inversion Hin.
  - apply NoDup_app in Hnd as (Hnd & Hj & _).
    rewrite fold_left_app. cbn [fold_left]. rewrite oscStep_fst.
    destruct (oscStep_fold l s acc Hs) as (Hs1 & Hfr & _ & Hph).
    cbv zeta in *. set (r := fold_left oscStep l (s, acc)) in *.
    destruct (decide (t = j)) as [->|Hne].
    + assert (Hjl : j ∉ l).
      { intros Hjl. apply (Hj j Hjl), list_elem_of_here. }
      rewrite edgeStep_edgeNext by assumption.
      rewrite (Hph j Hjl).
      destruct (lockFrame_all _ _ Hfr) as (_ & _ & _ & _ & _ & -> & _).
      reflexivity.
    + rewrite edgeStep_other by exact Hne. apply IH; [exact Hnd|].
      apply elem_of_app in Hin as [?|Hx]; [assumption|].
      apply list_elem_of_singleton in Hx. contradiction.
Qed.

Lemma tick_slot s t :
  sized s -> (t < MAX_OSC)%nat -> Z.of_nat t < numOsc s ->
  phase (fst (tick s)) t = edgeNext (edgLen s !!! t) (phase s t).
Proof.
  intros Hs Ht Hact. unfold tick.
  apply oscStep_fold_slot; [apply NoDup_seq|apply elem_of_slots, Hact|exact Ht|exact Hs].
Qed.

(** One sample moves an edge state that is in step one position on,
    round the period. *)
Lemma edgeNext_position len ph :
  1 <= fst len <= 255 -> 1 <= snd len <= 255 -> inStep len ph ->
  inStep len (edgeNext len ph) /\
  position len (edgeNext len ph)
  = (position len ph + 1) mod (fst len + snd len).
Proof.
  destruct len as [L0 L1], ph as [idx dc]. unfold inStep. cbn [fst snd].
  intros H0 H1 [[-> Hdc]|[-> Hdc]]; unfold edgeNext, position, edge;
    cbn [fst snd] in *;
    rewrite (to_byte_id (dc - 1)) by (unfold is_byte; lia);
    change (Z.lxor 0 1) with 1; change (Z.lxor 1 1) with 0;
    destruct (Z.eqb_spec (dc - 1) 0) as [Hz|Hnz]; cbn [fst snd];
    change (0 =? 0) with true; change (1 =? 0) with false; cbv iota.
  - split; [right; lia|]. rewrite Z.mod_small by lia. lia.
  - split; [left; lia|]. rewrite Z.mod_small by lia. lia.
  - split; [left; lia|].
    replace (L0 + L1 - dc + 1) with (0 + 1 * (L0 + L1)) by lia.
    rewrite Z.mod_add by lia. rewrite Z.mod_small; lia.
  - split; [right; lia|]. rewrite Z.mod_small by lia. lia.
Qed.

Lemma inStep_edge len ph :
  0 <= fst len -> 0 <= snd len -> inStep len ph ->
  (position len ph <? fst len) = (fst ph =? 0) /\
  0 <= position len ph < fst len + snd len.
Proof.
  destruct len as [L0 L1], ph as [idx dc]. unfold inStep, position.
  cbn [fst snd]. intros H0 H1 [[-> Hdc]|[-> Hdc]].
  - change (0 =? 0) with true. cbv iota.
    destruct (Z.ltb_spec (L0 - dc) L0); [split; [reflexivity|lia]|lia].
  - change (1 =? 0) with false. cbv iota.
    destruct (Z.ltb_spec (L0 + L1 - dc) L0); [lia|split; [reflexivity|lia]].
Qed.

(** An active slot in step stays in step, and [n] samples on stands [n]
    positions on, round its period. *)
Lemma ticks_position n s t :
  sized s -> (t < MAX_OSC)%nat -> Z.of_nat t < numOsc s ->
  1 <= fst (edgLen s !!! t) <= 255 -> 1 <= snd (edgLen s !!! t) <= 255 ->
  inStep (edgLen s !!! t) (phase s t) ->
  lockFrame (ticks n s) = lockFrame s /\ sized (ticks n s) /\
  inStep (edgLen s !!! t) (phase (ticks n s) t) /\
  position (edgLen s !!! t) (phase (ticks n s) t)
  = (position (edgLen s !!! t) (phase s t) + Z.of_nat n) mod period_of s t.
Proof.
  intros Hs Ht Hact H0 H1. unfold period_of.
  set (len := edgLen s !!! t) in *. revert s Hs Hact len H0 H1.
  induction n as [|n IH]; intros s Hs Hact len H0 H1 Hin.
  - cbn [ticks]. split; [reflexivity|]. split; [exact Hs|]. split; [exact Hin|].
    destruct (inStep_edge len _ ltac:(lia) ltac:(lia) Hin) as (_ & Hr).
    rewrite Z.add_0_r, Z.mod_small by lia. reflexivity.
  - cbn [ticks].
    pose proof (tick_lockFrame s Hs) as Hfr.
    destruct (lockFrame_all _ _ Hfr) as (_ & _ & EN & _ & _ & EL & _).
    pose proof (tick_slot s t Hs Ht Hact) as Hph. fold len in Hph.
    destruct (edgeNext_position len (phase s t) H0 H1 Hin) as (Hin' & Hpos).
    destruct (IH (fst (tick s))) as (F & S & I & P).
    + apply tick_sized, Hs.
    + rewrite EN. exact Hact.
    + rewrite EL. exact H0.
    + rewrite EL. exact H1.
    + rewrite EL, Hph. exact Hin'.
    + rewrite EL in I, P. fold len in I, P.
      split; [rewrite F; exact Hfr|]. split; [exact S|]. split; [exact I|].
      rewrite P, Hph, Hpos, Z.add_mod_idemp_l by lia. f_equal. lia.
Qed.

(** Two active slots with the same edge lengths and the same edge state
    keep the same edge state, sample after sample. *)
Lemma ticks_unison n s t u :
  sized s -> (t < MAX_OSC)%nat -> (u < MAX_OSC)%nat ->
  Z.of_nat t < numOsc s -> Z.of_nat u < numOsc s ->
  edgLen s !!! t = edgLen s !!! u -> phase s t = phase s u ->
  phase (ticks n s) t = phase (ticks n s) u.
Proof.
  revert s. induction n as [|n IH]; intros s Hs Ht Hu Ha Hb El Ep.
  - exact Ep.
  - cbn [ticks].
    pose proof (tick_lockFrame s Hs) as Hfr.
    destruct (lockFrame_all _ _ Hfr) as (_ & _ & EN & _ & _ & EL & _).
    apply IH; try assumption.
    + apply tick_sized, Hs.
    + rewrite EN. exact Ha.
    + rewrite EN. exact Hb.
    + rewrite EL. exact El.
    + rewrite !tick_slot by assumption. rewrite El, Ep. reflexivity.
Qed.

(** *** Concrete sections *)

Lemma zeroMem_ready :
  sized (construct 0 zeroMem) /\ is_byte (curOsc (construct 0 zeroMem)) /\
  forall i : nat, (i < MAX_OSC)%nat ->
    is_byte (fst (edgLen (construct 0 zeroMem) !!! i)) /\
    is_byte (snd (edgLen (construct 0 zeroMem) !!! i)).
Proof.
  split; [repeat split|].
  split; [unfold is_byte; vm_compute; split; discriminate|].
  intros i Hi. unfold MAX_OSC in Hi.
  destruct i as [|[|[|[|i]]]]; [| | | |lia];
    unfold is_byte; vm_compute; repeat split; discriminate.
Qed.

Lemma powerOn_consistent : consistent powerOn.
Proof.
  destruct zeroMem_ready as (Hs & Hc & Hb).
  destruct (reset_known (flashImage 0) (construct 0 zeroMem) Hs Hc Hb)
    as (s' & E & Hc' & _).
  unfold powerOn. rewrite E. exact Hc'.
Qed.

Lemma lowestNote_consistent : consistent lowestNote.
Proof.
  assert (E : setNote (flashImage 0) 18 powerOn 0 0 = Some lowestNote)
    by (vm_compute; reflexivity).
  assert (Ht : (0 < MAX_OSC)%nat) by (unfold MAX_OSC; lia).
  apply (setNote_keeps _ _ _ _ _ _ powerOn_consistent Ht E).
Qed.

End OscInvariant.

(** ** The oscillator bank in use *)

Module OscProperties.

Import Osc OscFacts OscInvariant.

(** The split of a period: the high edge is never the longer one. *)
Lemma calcSteps_duty pw P :
  1 <= pw <= 128 -> 2 <= P <= 510 ->
  fst (calcSteps pw P) + snd (calcSteps pw P) = P /\
  1 <= fst (calcSteps pw P) <= snd (calcSteps pw P) /\
  snd (calcSteps pw P) <= 255.
Proof.
  intros Hpw HP. unfold calcSteps.
  assert (Hprod : 0 <= P * pw <= 65280) by nia.
  rewrite (to_word_id (P * pw)) by (unfold is_word; lia).
  rewrite Word_msb_div.
  pose proof (Z.mul_div_le (P * pw) 256 ltac:(lia)) as Hq.
  assert (Hq0 : 0 <= P * pw / 256) by (apply Z.div_pos; lia).
  set (q := P * pw / 256) in *.
  assert (Hq2 : 2 * q <= P) by nia.
  destruct (Z.eqb_spec q 0) as [Hz|Hz].
  - rewrite (to_word_id (P - 1)) by (unfold is_word; lia).
    destruct (Z.ltb_spec 255 (P - 1)); cbn [fst snd].
    + rewrite (to_word_id (1 + (P - 1 - 255))) by (unfold is_word; lia).
      rewrite !Word_lsb_id by (unfold is_byte; lia). lia.
    + rewrite !Word_lsb_id by (unfold is_byte; lia). lia.
  - rewrite (to_word_id (P - q)) by (unfold is_word; lia).
    destruct (Z.ltb_spec 255 (P - q)); cbn [fst snd].
    + rewrite (to_word_id (q + (P - q - 255))) by (unfold is_word; lia).
      rewrite !Word_lsb_id by (unfold is_byte; lia). lia.
    + rewrite !Word_lsb_id by (unfold is_byte; lia). lia.
Qed.

Lemma setNote_returns flash fuel s t n :
  numNotes s = 48 -> 0 <= n <= 255 -> (18 <= fuel)%nat ->
  exists s', setNote flash fuel s t n = Some s'.
Proof.
  intros Hnn Hn Hfuel. unfold setNote.
  destruct (freeze s); [eauto|].
  destruct (n =? NoNote); [eauto|].
  rewrite Hnn, wrapNote_octaveReduce by lia. eauto.
Qed.

(** The edge lengths a sounding [setNote] leaves on its slot. *)
Lemma setNote_edges flash fuel s t n :
  tableAt flash (periods s) -> numNotes s = 48 -> freeze s = false ->
  (t < MAX_OSC)%nat -> sized s ->
  0 <= n <= 255 -> n <> NoNote -> (18 <= fuel)%nat ->
  exists s',
    setNote flash fuel s t n = Some s' /\
    edgLen s' !!! t
    = calcSteps (pW s) (NotePeriods !!! Z.to_nat (octaveReduce n)).
Proof.
  intros Htab Hnn Hfz Ht Hs Hn Hno Hfuel.
  assert (Hw : wrapNote fuel (numNotes s) n = Some (octaveReduce n)).
  { rewrite Hnn. apply wrapNote_octaveReduce; lia. }
  pose proof (octaveReduce_range n ltac:(lia)) as Hm.
  eexists. split; [apply setNote_sounding; eassumption|].
  rewrite (table_read flash (periods s) _ Htab Hm).
  set (m := octaveReduce n) in *.
  set (s1 := set_note s (<[t := m]> (note s))).
  assert (Hs1 : sized s1).
  { destruct Hs as (L1 & L2 & L3 & L4 & L5). unfold sized, s1. cbn.
    rewrite length_insert. auto. }
  pose proof (calcEdges_sized s1 t (NotePeriods !!! Z.to_nat m) Hs1) as Hs2.
  destruct (phaseLock_fold t (slots (numOsc s))
              (calcEdges s1 t (NotePeriods !!! Z.to_nat m)) Ht Hs2)
    as (_ & Hfr & _ & _).
  cbv zeta in Hfr. apply lockFrame_fields in Hfr as (-> & _).
  rewrite calcEdges_slot by assumption. reflexivity.
Qed.

(** What [setPhase] leaves on its slot. *)
Lemma setPhase_result fuel s t ph :
  (t < MAX_OSC)%nat -> sized s ->
  is_byte (fst (edgLen s !!! t)) -> is_byte (snd (edgLen s !!! t)) ->
  is_word ph -> 0 < period_of s t ->
  ph / period_of s t <= Z.of_nat fuel ->
  exists s',
    setPhase fuel s t ph = Some s' /\ lockFrame s' = lockFrame s /\
    phase s' t = if ph mod period_of s t <? fst (edgLen s !!! t)
                 then (0, fst (edgLen s !!! t) - ph mod period_of s t)
                 else (1, period_of s t - ph mod period_of s t).
Proof.
  intros Ht (S1 & S2 & S3 & S4 & S5) H0 H1 Hph Hpos Hf.
  unfold period_of, is_byte, is_word in *.
  set (L0 := fst (edgLen s !!! t)) in *.
  set (L1 := snd (edgLen s !!! t)) in *.
  assert (Hper : to_word (L0 + L1) = L0 + L1)
    by (apply to_word_id; unfold is_word; lia).
  pose proof (Z.mod_pos_bound ph (L0 + L1) Hpos) as Hp.
  unfold setPhase. fold L0 L1. cbv zeta.
  rewrite Hper, (normPhase_mod fuel (L0 + L1) ph Hpos) by lia.
  set (p := ph mod (L0 + L1)) in *.
  destruct (Z.ltb_spec p L0) as [Hlt|Hge]; eexists;
    (split; [reflexivity|]); (split; [reflexivity|]);
    unfold phase; cbn [edgIdx edgeDC edgLen set_edgIdx set_edgeDC];
    rewrite !list_lookup_total_insert_eq by lia; fold L0;
    rewrite to_byte_id by (unfold is_byte; lia); reflexivity.
Qed.

Lemma ticks_lockFrame n s :
  sized s -> sized (ticks n s) /\ lockFrame (ticks n s) = lockFrame s.
Proof.
  intros Hs.
  apply (ticks_invariant (fun x => sized x /\ lockFrame x = lockFrame s)).
  - intros x (Hx & Hfr). split; [apply tick_sized, Hx|].
    rewrite tick_lockFrame by exact Hx. exact Hfr.
  - auto.
Qed.

(** X1. [setNumOsc( n )] takes any byte: the number of oscillators
    becomes [n] clamped to 1..[MAX_OSC], the current oscillator is pulled
    back among them, the amplitude becomes 127 divided by their number
    (between 31 and 127), and every active slot gets that amplitude on its
    high edge and its negation on the low edge, or the amplitude itself
    when one of its edge lengths is 0. Edge lengths, edge states, notes,
    pulse width and freeze flag are left alone. *)
Theorem setNumOsc_scales s n :
  sized s -> is_byte (curOsc s) -> is_byte n ->
  (forall i : nat, (i < MAX_OSC)%nat ->
     is_byte (fst (edgLen s !!! i)) /\ is_byte (snd (edgLen s !!! i))) ->
  let s' := setNumOsc s n in
  numOsc s' = Z.max 1 (Z.min (Z.of_nat MAX_OSC) n) /\
  0 <= curOsc s' < numOsc s' /\
  curOsc s' = Z.min (curOsc s) (numOsc s' - 1) /\
  ampOsc s' = 127 / numOsc s' /\ 31 <= ampOsc s' <= 127 /\
  (forall i : nat, Z.of_nat i < numOsc s' ->
     edgVal s' !!! i = (ampOsc s', lowValue (ampOsc s') (edgLen s !!! i))) /\
  (edgLen s', edgIdx s', edgeDC s', note s', pW s', freeze s')
  = (edgLen s, edgIdx s, edgeDC s, note s, pW s, freeze s).
Proof.
  intros Hs Hcur Hn Hb. cbv zeta.
  destruct (setNumOsc_sets_up s n Hs Hcur Hn Hb) as (Hc & EN & EC & Earr).
  destruct (consistent_amp _ Hc) as (Ha & _).
  destruct Hc as (_ & _ & Hcur' & Hamp & _ & Hv).
  change (Z.of_nat MAX_OSC) with 4.
  split; [exact EN|]. split; [exact Hcur'|].
  split; [rewrite EC, EN; reflexivity|].
  split; [exact Hamp|]. split; [exact Ha|]. split; [|exact Earr].
  intros i Hi. rewrite (Hv i Hi). injection Earr as -> _ _ _ _ _. reflexivity.
Qed.

Lemma setNumOsc_scales_witness :
  numOsc (setNumOsc powerOn 4) = 4 /\ ampOsc (setNumOsc powerOn 4) = 31.
Proof.
  destruct (consistent_bytes powerOn powerOn_consistent) as (Hs & Hc & Hb).
  assert (Hn : is_byte 4) by (unfold is_byte; lia).
  destruct (setNumOsc_scales powerOn 4 Hs Hc Hn Hb) as (E1 & _ & _ & E4 & _).
  split; [exact E1|]. rewrite E4, E1. reflexivity.
Defined.

(** X2. The reset of the section works from any contents of its
    members: it returns, and leaves one oscillator, current oscillator 0,
    amplitude 127, pulse width 128, freeze off, and all [MAX_OSC] slots
    silent: note [NoNote], both edge lengths 0, edge index 0, and low edge
    value 127. The countdowns are not reset. *)
Theorem reset_from_any_contents flash s :
  sized s -> is_byte (curOsc s) ->
  (forall i : nat, (i < MAX_OSC)%nat ->
     is_byte (fst (edgLen s !!! i)) /\ is_byte (snd (edgLen s !!! i))) ->
  exists s',
    charEv_reset flash s = Some s' /\ consistent s' /\
    scalars s' = (periods s, numNotes s, 1, 0, 127, 128, false) /\
    edgeDC s' = edgeDC s /\
    edgVal s' !!! 0%nat = (127, 127) /\
    forall i : nat, (i < MAX_OSC)%nat ->
      note s' !!! i = NoNote /\ edgLen s' !!! i = (0, 0) /\
      edgIdx s' !!! i = 0 /\ snd (edgVal s' !!! i) = 127.
Proof. apply reset_known. Qed.

Lemma reset_from_any_contents_witness :
  exists s',
    charEv_reset (flashImage 0) (construct 0 zeroMem) = Some s' /\
    scalars s' = (0, 48, 1, 0, 127, 128, false) /\
    edgLen s' !!! 3%nat = (0, 0).
Proof.
  destruct zeroMem_ready as (Hs & Hc & Hb).
  destruct (reset_from_any_contents (flashImage 0) (construct 0 zeroMem) Hs Hc Hb)
    as (s' & E & _ & Esc & _ & _ & Hall).
  exists s'. split; [exact E|]. split; [exact Esc|].
  apply (Hall 3%nat). unfold MAX_OSC. lia.
Defined.

(** X3. On a table of 48 notes [setNote( t, n )] returns for every byte
    [n], frozen or not, and whatever it does to slot [t] it keeps the
    amplitude invariant and the scalar members and leaves every other
    slot as it was: note, edge lengths, edge values, edge index and
    countdown. *)
Theorem setNote_touches_one_slot flash fuel s t n :
  consistent s -> (t < MAX_OSC)%nat -> numNotes s = 48 ->
  0 <= n <= 255 -> (18 <= fuel)%nat ->
  exists s',
    setNote flash fuel s t n = Some s' /\ consistent s' /\
    scalars s' = scalars s /\
    forall j, j <> t -> slotView s' j = slotView s j.
Proof.
  intros Hc Ht Hnn Hn Hfuel.
  destruct (setNote_returns flash fuel s t n Hnn Hn Hfuel) as (s' & E).
  exists s'. split; [exact E|]. apply (setNote_keeps _ _ _ _ _ _ Hc Ht E).
Qed.

Lemma setNote_touches_one_slot_witness :
  exists s',
    setNote (flashImage 0) 18 lowestNote 1 100 = Some s' /\
    slotView s' 0 = slotView lowestNote 0.
Proof.
  assert (Ht : (1 < MAX_OSC)%nat) by (unfold MAX_OSC; lia).
  destruct (setNote_touches_one_slot (flashImage 0) 18 lowestNote 1 100
              lowestNote_consistent Ht eq_refl ltac:(lia) ltac:(lia))
    as (s' & E & _ & _ & Hoth).
  exists s'. split; [exact E|]. apply Hoth. lia.
Defined.

(** X4. A note other than the sentinel set on an active slot, with
    freeze off and the pulse width in 1..128, makes the slot sound: its
    high edge is at least 1 sample and never longer than its low edge,
    which is at most 255; the two add up to the table period of the
    octave-reduced note; and its edge values are the amplitude and its
    negation. *)
Theorem setNote_sounds flash fuel s t n :
  consistent s -> tableAt flash (periods s) -> numNotes s = 48 ->
  freeze s = false -> 1 <= pW s <= 128 -> Z.of_nat t < numOsc s ->
  0 <= n <= 255 -> n <> NoNote -> (18 <= fuel)%nat ->
  exists s',
    setNote flash fuel s t n = Some s' /\
    1 <= fst (edgLen s' !!! t) <= snd (edgLen s' !!! t) /\
    snd (edgLen s' !!! t) <= 255 /\
    period_of s' t = NotePeriods !!! Z.to_nat (octaveReduce n) /\
    edgVal s' !!! t = (ampOsc s, - ampOsc s).
Proof.
  intros Hc Htab Hnn Hfz Hpw Hact Hn Hno Hfuel.
  pose proof Hc as (Hs & HN & _).
  assert (Ht : (t < MAX_OSC)%nat) by (unfold MAX_OSC in *; lia).
  destruct (setNote_edges flash fuel s t n Htab Hnn Hfz Ht Hs Hn Hno Hfuel)
    as (s' & E & Hlen).
  destruct (setNote_keeps _ _ _ _ _ _ Hc Ht E) as (Hc' & Hsc & _).
  pose proof (table_entry_range _ (octaveReduce_range n ltac:(lia))) as HP.
  destruct (calcSteps_duty (pW s) (NotePeriods !!! Z.to_nat (octaveReduce n)))
    as (Hsum & Hhi & Hlo); [lia..|].
  exists s'. split; [exact E|]. unfold period_of. rewrite Hlen.
  split; [exact Hhi|]. split; [exact Hlo|]. split; [exact Hsum|].
  destruct Hc' as (_ & _ & _ & _ & _ & Hv).
  unfold scalars in Hsc. injection Hsc as _ _ EN _ EA _ _.
  rewrite (Hv t) by (rewrite EN; exact Hact).
  rewrite Hlen, EA. unfold lowValue.
  destruct (Z.eqb_spec (fst (calcSteps (pW s)
              (NotePeriods !!! Z.to_nat (octaveReduce n)))) 0); [lia|].
  destruct (Z.eqb_spec (snd (calcSteps (pW s)
              (NotePeriods !!! Z.to_nat (octaveReduce n)))) 0); [lia|].
  reflexivity.
Qed.

Lemma setNote_sounds_witness :
  exists s',
    setNote (flashImage 0) 18 powerOn 0 61 = Some s' /\
    period_of s' 0 = 43 /\ edgVal s' !!! 0%nat = (127, -127).
Proof.
  assert (Htab : tableAt (flashImage 0) (periods powerOn))
    by (apply (flashImage_tableAt 0); lia).
  assert (Hpw : 1 <= pW powerOn <= 128) by (vm_compute; split; discriminate).
  assert (Hact : Z.of_nat 0 < numOsc powerOn) by reflexivity.
  assert (Hno : 61 <> NoNote) by (unfold NoNote; lia).
  destruct (setNote_sounds (flashImage 0) 18 powerOn 0 61 powerOn_consistent
              Htab eq_refl eq_refl Hpw Hact ltac:(lia) Hno ltac:(lia))
    as (s' & E & _ & _ & HP & HV).
  exists s'. split; [exact E|]. split; [exact HP|exact HV].
Defined.

(** X5. [setPW( x )] stores [x] clamped to 1..128, keeps the amplitude
    invariant, and changes edge lengths and edge values only: the edge
    index and countdown of every slot keep running, and notes, number of
    oscillators, current oscillator, amplitude and freeze flag stay. An
    active slot whose period is at least 1 keeps its period. *)
Theorem setPW_keeps_running s x :
  consistent s ->
  let s' := setPW s x in
  consistent s' /\ pW s' = Z.max 1 (Z.min 128 x) /\
  (periods s', numNotes s', numOsc s', curOsc s', ampOsc s',
   edgIdx s', edgeDC s', note s', freeze s')
  = (periods s, numNotes s, numOsc s, curOsc s, ampOsc s,
     edgIdx s, edgeDC s, note s, freeze s) /\
  forall i : nat, Z.of_nat i < numOsc s -> 1 <= period_of s i ->
    period_of s' i = period_of s i.
Proof.
  intros Hc. cbv zeta.
  destruct (setPW_keeps s x Hc) as (Hc' & Hpw & Hfr).
  split; [exact Hc'|]. split; [exact Hpw|]. split; [exact Hfr|].
  intros i Hi Hp. pose proof Hc as (Hs & HN & _ & _ & Hb & _).
  assert (Ht : (i < MAX_OSC)%nat) by (unfold MAX_OSC in *; lia).
  destruct (Hb i Ht) as (B0 & B1).
  apply (setPW_sounding_period s x i Hs (proj2 HN) Hi B0 B1 Hp).
Qed.

Lemma startedNote_running : consistent (ticks 7 startedNote).
Proof.
  apply (ticks_invariant consistent); [apply tick_consistent|].
  assert (E : setPhase 1 lowestNote 0 0 = Some startedNote)
    by (vm_compute; reflexivity).
  destruct (setPhase_lockFrame _ _ _ _ _ (proj1 lowestNote_consistent) E)
    as (Hs & Hfr).
  apply (lockFrame_consistent _ _ lowestNote_consistent Hs Hfr).
Qed.

(** Seven samples into note 0, with the countdown of slot 0 at 173,
    [setPW( 64 )] moves the edges from 180 and 180 to 105 and 255; the
    countdown and the period of 360 stay. *)
Lemma setPW_keeps_running_witness :
  pW (ticks 7 startedNote) = 128 /\
  edgLen (ticks 7 startedNote) !!! 0%nat = (180, 180) /\
  edgeDC (ticks 7 startedNote) !!! 0%nat = 173 /\
  pW (setPW (ticks 7 startedNote) 64) = 64 /\
  period_of (setPW (ticks 7 startedNote) 64) 0 = 360 /\
  edgeDC (setPW (ticks 7 startedNote) 64) !!! 0%nat = 173 /\
  edgLen (setPW (ticks 7 startedNote) 64) !!! 0%nat = (105, 255).
Proof.
  do 3 (split; [vm_compute; reflexivity|]).
  assert (Hact : Z.of_nat 0 < numOsc (ticks 7 startedNote))
    by (vm_compute; reflexivity).
  assert (Hp : 1 <= period_of (ticks 7 startedNote) 0)
    by (vm_compute; discriminate).
  assert (Ep : period_of (ticks 7 startedNote) 0 = 360)
    by (vm_compute; reflexivity).
  assert (Ed : edgeDC (ticks 7 startedNote) !!! 0%nat = 173)
    by (vm_compute; reflexivity).
  destruct (setPW_keeps_running (ticks 7 startedNote) 64 startedNote_running)
    as (_ & Hpw & Hfr & Hper).
  split; [exact Hpw|]. split.
  - rewrite (Hper 0%nat Hact Hp). exact Ep.
  - assert (Edc : edgeDC (setPW (ticks 7 startedNote) 64)
                 = edgeDC (ticks 7 startedNote))
      by exact (f_equal (fun '(_, _, _, _, _, _, dc, _, _) => dc) Hfr).
    split; [rewrite Edc; exact Ed|vm_compute; reflexivity].
Defined.

(** X6. In a section that satisfies the amplitude invariant [output]
    never clips: every sample is the exact sum of what the active slots
    contribute, each plus or minus the amplitude, so it lies within
    the number of oscillators times the amplitude, hence within
    -127..127, with no wrap of the [char] accumulator. [output] writes
    the number of samples asked for and keeps the invariant. *)
Theorem output_never_clips icnt s :
  consistent s ->
  consistent (fst (output icnt s)) /\
  fst (output icnt s) = ticks icnt s /\
  length (snd (output icnt s)) = icnt /\
  Forall (fun v => - 127 <= v <= 127) (snd (output icnt s)) /\
  snd (tick s) = sumZ (map (contribution (fst (tick s))) (slots (numOsc s))) /\
  Z.abs (snd (tick s)) <= numOsc s * ampOsc s /\
  (forall i : nat, Z.of_nat i < numOsc s ->
     contribution (fst (tick s)) i = ampOsc s \/
     contribution (fst (tick s)) i = - ampOsc s).
Proof.
  intros Hc.
  destruct (output_bounded icnt s Hc) as (H1 & H2 & H3 & H4).
  destruct (tick_exact s Hc) as (E & B & _).
  split; [exact H1|]. split; [exact H2|]. split; [exact H3|].
  split; [exact H4|]. split; [exact E|]. split; [exact B|].
  intros i Hi. pose proof (tick_consistent s Hc) as Hc'.
  pose proof Hc as (Hs & _).
  destruct (lockFrame_all _ _ (tick_lockFrame s Hs))
    as (_ & _ & EN & _ & EA & _).
  rewrite <- EA. apply contribution_bound; [exact Hc'|]. rewrite EN. exact Hi.
Qed.

Lemma output_never_clips_witness :
  length (snd (output 8 lowestNote)) = 8%nat /\
  Forall (fun v => - 127 <= v <= 127) (snd (output 8 lowestNote)).
Proof.
  destruct (output_never_clips 8 lowestNote lowestNote_consistent)
    as (_ & _ & H3 & H4 & _).
  split; [exact H3|exact H4].
Defined.

(** X7. An active sounding slot whose edge state is in step with its
    edge lengths puts out a square wave of exactly its period: [n]
    samples on it is still in step, it stands [n] positions further
    round the period, and it adds the amplitude to the sample while the
    position is below the high edge length and the negated amplitude
    otherwise. *)
Theorem slot_waveform s t n :
  consistent s -> Z.of_nat t < numOsc s ->
  1 <= fst (edgLen s !!! t) -> 1 <= snd (edgLen s !!! t) ->
  inStep (edgLen s !!! t) (phase s t) ->
  let len := edgLen s !!! t in
  let pos := (position len (phase s t) + Z.of_nat n) mod period_of s t in
  inStep len (phase (ticks n s) t) /\
  position len (phase (ticks n s) t) = pos /\
  contribution (ticks n s) t = if pos <? fst len then ampOsc s else - ampOsc s.
Proof.
  intros Hc Hact H0 H1 Hin. cbv zeta.
  pose proof Hc as (Hs & HN & _ & _ & Hb & Hv).
  assert (Ht : (t < MAX_OSC)%nat) by (unfold MAX_OSC in *; lia).
  destruct (Hb t Ht) as (B0 & B1). unfold is_byte in B0, B1.
  destruct (ticks_position n s t Hs Ht Hact ltac:(lia) ltac:(lia) Hin)
    as (Hfr & _ & Hin' & Hpos).
  split; [exact Hin'|]. split; [exact Hpos|].
  assert (P0 : 0 <= fst (edgLen s !!! t)) by lia.
  assert (P1 : 0 <= snd (edgLen s !!! t)) by lia.
  destruct (inStep_edge _ _ P0 P1 Hin') as (Hedge & _).
  rewrite <- Hpos, Hedge.
  destruct (lockFrame_all _ _ Hfr) as (_ & _ & _ & _ & _ & _ & EV & _).
  unfold contribution, edge. rewrite EV, (Hv t Hact). cbn [fst snd].
  unfold phase. cbn [fst]. unfold lowValue.
  destruct (Z.eqb_spec (fst (edgLen s !!! t)) 0); [lia|].
  destruct (Z.eqb_spec (snd (edgLen s !!! t)) 0); [lia|].
  reflexivity.
Qed.

Lemma slot_waveform_witness :
  contribution (ticks 100 startedNote) 0 = 127 /\
  contribution (ticks 200 startedNote) 0 = -127 /\
  contribution (ticks 400 startedNote) 0 = 127.
Proof.
  assert (Hc : consistent startedNote).
  { assert (E : setPhase 1 lowestNote 0 0 = Some startedNote)
      by (vm_compute; reflexivity).
    destruct (setPhase_lockFrame _ _ _ _ _ (proj1 lowestNote_consistent) E)
      as (Hs & Hfr).
    apply (lockFrame_consistent _ _ lowestNote_consistent Hs Hfr). }
  assert (Hact : Z.of_nat 0 < numOsc startedNote) by reflexivity.
  assert (H0 : 1 <= fst (edgLen startedNote !!! 0%nat)) by (vm_compute; discriminate).
  assert (H1 : 1 <= snd (edgLen startedNote !!! 0%nat)) by (vm_compute; discriminate).
  assert (Hin : inStep (edgLen startedNote !!! 0%nat) (phase startedNote 0)).
  { left. vm_compute. repeat split; discriminate. }
  split; [|split].
  - exact (proj2 (proj2 (slot_waveform startedNote 0 100 Hc Hact H0 H1 Hin))).
  - exact (proj2 (proj2 (slot_waveform startedNote 0 200 Hc Hact H0 H1 Hin))).
  - exact (proj2 (proj2 (slot_waveform startedNote 0 400 Hc Hact H0 H1 Hin))).
Defined.

(** X8. Two active slots with the same edge lengths and the same edge
    index and countdown stay together: after any number of samples they
    have the same edge index and countdown again, and, under the
    amplitude invariant, add the same value to every sample. *)
Theorem unison_stays_locked n s t u :
  consistent s -> Z.of_nat t < numOsc s -> Z.of_nat u < numOsc s ->
  edgLen s !!! t = edgLen s !!! u -> phase s t = phase s u ->
  phase (ticks n s) t = phase (ticks n s) u /\
  contribution (ticks n s) t = contribution (ticks n s) u.
Proof.
  intros Hc Ha Hb El Ep. pose proof Hc as (Hs & HN & _ & _ & _ & Hv).
  assert (Ht : (t < MAX_OSC)%nat) by (unfold MAX_OSC in *; lia).
  assert (Hu : (u < MAX_OSC)%nat) by (unfold MAX_OSC in *; lia).
  pose proof (ticks_unison n s t u Hs Ht Hu Ha Hb El Ep) as Hph.
  split; [exact Hph|].
  destruct (ticks_lockFrame n s Hs) as (_ & Hfr).
  destruct (lockFrame_all _ _ Hfr) as (_ & _ & _ & _ & _ & _ & EV & _).
  unfold contribution. rewrite EV, (Hv t Ha), (Hv u Hb), El.
  unfold phase in Hph. injection Hph as -> _. reflexivity.
Qed.

Lemma unison_stays_locked_witness :
  phase (ticks 1000 unisonPair) 0 = phase (ticks 1000 unisonPair) 1.
Proof.
  assert (Ht0 : (0 < MAX_OSC)%nat) by (unfold MAX_OSC; lia).
  assert (Ht1 : (1 < MAX_OSC)%nat) by (unfold MAX_OSC; lia).
  assert (Hc : consistent unisonPair).
  { destruct (consistent_bytes powerOn powerOn_consistent) as (Hs & Hcur & Hb).
    assert (H2 : consistent (setNumOsc powerOn 2)).
    { apply setNumOsc_sets_up; try assumption. unfold is_byte; lia. }
    destruct (setNote (flashImage 0) 18 (setNumOsc powerOn 2) 0 7)
      as [s1|] eqn:E1; [|vm_compute in E1; discriminate].
    assert (H3 : consistent s1).
    { apply (setNote_keeps _ _ _ _ _ _ H2 Ht0 E1). }
    destruct (setNote (flashImage 0) 18 s1 1 7) as [s2|] eqn:E2.
    - assert (H4 : consistent s2).
      { apply (setNote_keeps _ _ _ _ _ _ H3 Ht1 E2). }
      assert (Eu : unisonPair = s2).
      { unfold unisonPair. rewrite E1. cbn. rewrite E2. reflexivity. }
      rewrite Eu. exact H4.
    - exfalso.
      destruct (setNote_returns (flashImage 0) 18 s1 1 7) as (x & Ex);
        [|lia|lia|congruence].
      destruct (setNote_keeps _ _ _ _ _ _ H2 Ht0 E1)
        as (_ & Hsc & _).
      unfold scalars in Hsc. injection Hsc. intros. congruence. }
  apply (unison_stays_locked 1000 unisonPair 0 1 Hc); vm_compute; reflexivity.
Defined.

(** X9. [getPhase] does not read back what [setPhase] stored. After
    [setPhase( t, phase )] on a slot with a high edge of at least 1
    sample, with [p] the phase reduced modulo the period, [getPhase( t )]
    returns [p] plus the high edge length when [p] falls on the high
    edge, and [p] minus the high edge length otherwise: never [p]
    itself. *)
Theorem getPhase_after_setPhase fuel s t ph :
  (t < MAX_OSC)%nat -> sized s ->
  1 <= fst (edgLen s !!! t) <= 255 -> is_byte (snd (edgLen s !!! t)) ->
  is_word ph -> ph / period_of s t <= Z.of_nat fuel ->
  let p := ph mod period_of s t in
  exists s',
    setPhase fuel s t ph = Some s' /\
    getPhase s' t = (if p <? fst (edgLen s !!! t)
                     then p + fst (edgLen s !!! t)
                     else p - fst (edgLen s !!! t)) /\
    getPhase s' t <> p.
Proof.
  intros Ht Hs H0 H1 Hph Hf. cbv zeta.
  assert (B0 : is_byte (fst (edgLen s !!! t))) by (unfold is_byte; lia).
  assert (Hpos : 0 < period_of s t)
    by (unfold period_of, is_byte in *; lia).
  destruct (setPhase_result fuel s t ph Ht Hs B0 H1 Hph Hpos Hf)
    as (s' & E & Hfr & Hst).
  exists s'. split; [exact E|].
  destruct (lockFrame_all _ _ Hfr) as (_ & _ & _ & _ & _ & EL & _).
  pose proof (Z.mod_pos_bound ph (period_of s t) Hpos) as Hp.
  unfold getPhase. rewrite EL.
  unfold phase in Hst. unfold period_of, is_byte in *.
  set (L0 := fst (edgLen s !!! t)) in *.
  set (L1 := snd (edgLen s !!! t)) in *.
  set (p := ph mod (L0 + L1)) in *.
  assert (Hrow : edgLen s !!! t = (L0, L1)) by apply surjective_pairing.
  rewrite Hrow. unfold edge. cbn [fst snd].
  destruct (Z.ltb_spec p L0) as [Hlt|Hge]; injection Hst as -> ->.
  - change (0 =? 0) with true. cbn [negb]. cbv iota.
    rewrite to_word_id by (unfold is_word; lia). split; lia.
  - change (1 =? 0) with false. cbn [negb]. cbv iota.
    rewrite to_word_id by (unfold is_word; lia). split; lia.
Qed.

Lemma getPhase_after_setPhase_witness :
  exists s', setPhase 1 lowestNote 0 400 = Some s' /\ getPhase s' 0 = 220.
Proof.
  assert (Ht : (0 < MAX_OSC)%nat) by (unfold MAX_OSC; lia).
  assert (H0 : 1 <= fst (edgLen lowestNote !!! 0%nat) <= 255)
    by (vm_compute; split; discriminate).
  assert (H1 : is_byte (snd (edgLen lowestNote !!! 0%nat)))
    by (vm_compute; split; discriminate).
  assert (Hw : is_word 400) by (unfold is_word; lia).
  assert (Hf : 400 / period_of lowestNote 0 <= Z.of_nat 1)
    by (vm_compute; discriminate).
  destruct (getPhase_after_setPhase 1 lowestNote 0 400 Ht
              (proj1 lowestNote_consistent) H0 H1 Hw Hf) as (s' & E & G & _).
  exists s'. split; [exact E|exact G].
Defined.

(** X10. The pulse-width pot halves its value before [setPW]: a pot value
    [v] gives the pulse width [v/2], raised to 1 for the pot values 0 and
    1, so the pulse width lies in 1..127 and never reaches 128. The
    amplitude invariant is kept and the edge states keep running. *)
Theorem pot_pulse_width s potVal :
  consistent s -> is_byte potVal ->
  let s' := potPulseWidth s potVal in
  pW s' = Z.max 1 (potVal / 2) /\ 1 <= pW s' <= 127 /\
  consistent s' /\ edgIdx s' = edgIdx s /\ edgeDC s' = edgeDC s.
Proof.
  intros Hc Hv. cbv zeta. unfold potPulseWidth, is_byte in *.
  rewrite Z.shiftr_div_pow2 by lia. change (2 ^ 1) with 2.
  assert (Hh : 0 <= potVal / 2 <= 127) by (Z.div_mod_to_equations; lia).
  rewrite to_byte_id by (unfold is_byte; lia).
  destruct (setPW_keeps s (potVal / 2) Hc) as (Hc' & Hpw & Hfr).
  rewrite Hpw. split; [lia|]. split; [lia|]. split; [exact Hc'|].
  injection Hfr. auto.
Qed.

Lemma pot_pulse_width_witness :
  pW (potPulseWidth lowestNote 255) = 127 /\
  pW (potPulseWidth lowestNote 0) = 1.
Proof.
  split.
  - exact (proj1 (pot_pulse_width lowestNote 255 lowestNote_consistent
                    ltac:(unfold is_byte; lia))).
  - exact (proj1 (pot_pulse_width lowestNote 0 lowestNote_consistent
                    ltac:(unfold is_byte; lia))).
Defined.

(** X11. Every state the section reaches from a reset, whatever its
    contents before, through any run of console commands (select
    oscillator, note, phase, number of oscillators, pulse width, reset)
    and sample ticks satisfies the amplitude invariant, and the next
    sample [output] produces there lies within -127..127. *)
Theorem reachable_from_reset flash fuel s cs s' :
  sized s -> is_byte (curOsc s) ->
  (forall i : nat, (i < MAX_OSC)%nat ->
     is_byte (fst (edgLen s !!! i)) /\ is_byte (snd (edgLen s !!! i))) ->
  run flash fuel s (CmdReset :: cs) = Some s' ->
  consistent s' /\ - 127 <= snd (tick s') <= 127.
Proof.
  intros Hs Hcur Hb E. cbn [run charEv] in E.
  destruct (reset_known flash s Hs Hcur Hb) as (r & Er & Hr & _).
  rewrite Er in E.
  pose proof (run_consistent flash fuel cs r s' Hr E) as Hc.
  split; [exact Hc|]. apply tick_exact, Hc.
Qed.

Lemma reachable_from_reset_witness :
  exists s',
    run (flashImage 0) 18 (construct 0 zeroMem)
      [CmdReset; CmdNumOsc 3; CmdNote 5; CmdCurOsc 1; CmdNote 9;
       CmdPhase 7; CmdPW 40; CmdTick; CmdCurOsc 2; CmdPW 90; CmdTick]
    = Some s' /\
    consistent s' /\ - 127 <= snd (tick s') <= 127.
Proof.
  destruct zeroMem_ready as (Hs & Hc & Hb).
  destruct (run (flashImage 0) 18 (construct 0 zeroMem)
      [CmdReset; CmdNumOsc 3; CmdNote 5; CmdCurOsc 1; CmdNote 9;
       CmdPhase 7; CmdPW 40; CmdTick; CmdCurOsc 2; CmdPW 90; CmdTick])
    as [s'|] eqn:E; [|vm_compute in E; discriminate].
  exists s'. split; [reflexivity|].
  exact (reachable_from_reset _ _ _ _ _ Hs Hc Hb E).
Defined.

(** *** Getting in step *)

Lemma ticks_add a b s : ticks (a + b) s = ticks b (ticks a s).
Proof.
  revert s. induction a as [|a IH]; intros s; [reflexivity|].
  cbn [Nat.add ticks]. apply IH.
Qed.

Lemma ticks_succ n s : ticks (S n) s = fst (tick (ticks n s)).
Proof.
  replace (S n) with (n + 1)%nat by lia. rewrite ticks_add. reflexivity.
Qed.

(** A countdown out of step runs down to the next edge without touching
    the edge index. *)
Lemma countdown_phase k s t :
  sized s -> (t < MAX_OSC)%nat -> Z.of_nat t < numOsc s ->
  is_byte (edgeDC s !!! t) ->
  Z.of_nat k < (if edgeDC s !!! t =? 0 then 256 else edgeDC s !!! t) ->
  sized (ticks k s) /\ lockFrame (ticks k s) = lockFrame s /\
  phase (ticks k s) t = (edgIdx s !!! t, to_byte (edgeDC s !!! t - Z.of_nat k)).
Proof.
  intros Hs Ht Hact Hb. unfold is_byte in Hb.
  induction k as [|k IH]; intros Hk.
  - cbn [ticks]. split; [exact Hs|]. split; [reflexivity|].
    unfold phase. rewrite Z.sub_0_r, to_byte_id by (unfold is_byte; lia).
    reflexivity.
  - destruct IH as (Hsk & Hfr & Hph); [lia|].
    rewrite ticks_succ.
    destruct (lockFrame_all _ _ Hfr) as (_ & _ & EN & _ & _ & EL & _).
    split; [apply tick_sized, Hsk|].
    split; [rewrite tick_lockFrame by exact Hsk; exact Hfr|].
    rewrite tick_slot by (try assumption; rewrite EN; exact Hact).
    rewrite Hph. unfold edgeNext. cbn [fst snd].
    assert (E : to_byte (to_byte (edgeDC s !!! t - Z.of_nat k) - 1)
                = to_byte (edgeDC s !!! t - Z.of_nat (S k))).
    { unfold to_byte. rewrite Zminus_mod_idemp_l. f_equal. lia. }
    rewrite E.
    assert (Hnz : to_byte (edgeDC s !!! t - Z.of_nat (S k)) <> 0).
    { unfold to_byte. destruct (Z.eqb_spec (edgeDC s !!! t) 0) as [Hz|Hz];
        Z.div_mod_to_equations; lia. }
    destruct (Z.eqb_spec (to_byte (edgeDC s !!! t - Z.of_nat (S k))) 0);
      [contradiction|reflexivity].
Qed.

(** X15. Whatever countdown a sounding active slot is left with (by
    [setNote], which does not reset it, or by [setPW], which changes the
    edge lengths under it), it is in step with its edge lengths after
    that many samples, or 256 for a countdown of 0, and stays in step
    from then on. *)
Theorem slot_gets_in_step s t :
  consistent s -> Z.of_nat t < numOsc s ->
  1 <= fst (edgLen s !!! t) -> 1 <= snd (edgLen s !!! t) ->
  binary (edgIdx s !!! t) -> is_byte (edgeDC s !!! t) ->
  let d := Z.to_nat (if edgeDC s !!! t =? 0 then 256 else edgeDC s !!! t) in
  (1 <= d <= 256)%nat /\
  forall m : nat, inStep (edgLen s !!! t) (phase (ticks (d + m) s) t).
Proof.
  intros Hc Hact H0 H1 Hbin Hb. cbv zeta.
  pose proof Hc as (Hs & HN & _ & _ & Hbytes & _).
  assert (Ht : (t < MAX_OSC)%nat) by (unfold MAX_OSC in *; lia).
  destruct (Hbytes t Ht) as (B0 & B1). unfold is_byte in B0, B1, Hb.
  set (dz := if edgeDC s !!! t =? 0 then 256 else edgeDC s !!! t).
  assert (Hdz : 1 <= dz <= 256).
  { unfold dz. destruct (Z.eqb_spec (edgeDC s !!! t) 0); lia. }
  split; [lia|].
  destruct (countdown_phase (Z.to_nat dz - 1) s t Hs Ht Hact)
    as (Hsk & Hfr & Hph); [unfold is_byte; lia|fold dz; lia|].
  destruct (lockFrame_all _ _ Hfr) as (_ & _ & EN & _ & _ & EL & _).
  assert (Hd : inStep (edgLen s !!! t) (phase (ticks (Z.to_nat dz) s) t)).
  { replace (Z.to_nat dz) with (S (Z.to_nat dz - 1)) by lia.
    rewrite ticks_succ.
    rewrite tick_slot by (try assumption; rewrite EN; exact Hact).
    rewrite Hph, EL. unfold edgeNext. cbn [fst snd].
    assert (E : to_byte (to_byte (edgeDC s !!! t
                                  - Z.of_nat (Z.to_nat dz - 1)) - 1) = 0).
    { unfold to_byte. rewrite Zminus_mod_idemp_l. unfold dz.
      destruct (Z.eqb_spec (edgeDC s !!! t) 0) as [Hz|Hz].
      - rewrite Hz. reflexivity.
      - replace (edgeDC s !!! t - Z.of_nat (Z.to_nat (edgeDC s !!! t) - 1) - 1)
          with 0 by lia. reflexivity. }
    rewrite E. change (0 =? 0) with true. cbv iota.
    unfold inStep, edge. cbn [fst snd].
    destruct Hbin as [-> | ->].
    - change (Z.lxor 0 1) with 1. change (1 =? 0) with false. cbv iota.
      right. split; [reflexivity|lia].
    - change (Z.lxor 1 1) with 0. change (0 =? 0) with true. cbv iota.
      left. split; [reflexivity|lia]. }
  intros m. rewrite ticks_add.
  destruct (ticks_lockFrame (Z.to_nat dz) s Hs) as (Hsd & Hfd).
  destruct (lockFrame_all _ _ Hfd) as (_ & _ & END & _ & _ & ELD & _).
  destruct (ticks_position m (ticks (Z.to_nat dz) s) t Hsd Ht) as (_ & _ & I & _).
  - rewrite END. exact Hact.
  - rewrite ELD. lia.
  - rewrite ELD. lia.
  - rewrite ELD. exact Hd.
  - rewrite ELD in I. exact I.
Qed.

Lemma slot_gets_in_step_witness :
  inStep (edgLen lowestNote !!! 0%nat) (phase (ticks (256 + 1000) lowestNote) 0).
Proof.
  assert (Hb : is_byte (edgeDC lowestNote !!! 0%nat))
    by (vm_compute; split; discriminate).
  assert (Hbin : binary (edgIdx lowestNote !!! 0%nat)) by (left; reflexivity).
  assert (H0 : 1 <= fst (edgLen lowestNote !!! 0%nat)) by (vm_compute; discriminate).
  assert (H1 : 1 <= snd (edgLen lowestNote !!! 0%nat)) by (vm_compute; discriminate).
  assert (Hact : Z.of_nat 0 < numOsc lowestNote) by reflexivity.
  exact (proj2 (slot_gets_in_step lowestNote 0 lowestNote_consistent
                  Hact H0 H1 Hbin Hb) 1000%nat).
Defined.

(** *** The pulse width as a duty cycle *)

Lemma calcSteps_high pw P :
  1 <= pw <= 128 -> 2 <= P <= 510 ->
  fst (calcSteps pw P) = Z.max (Z.max 1 (P * pw / 256)) (P - 255).
Proof.
  intros Hpw HP. unfold calcSteps.
  assert (Hprod : 0 <= P * pw <= 65280) by nia.
  rewrite (to_word_id (P * pw)) by (unfold is_word; lia).
  rewrite Word_msb_div.
  pose proof (Z.mul_div_le (P * pw) 256 ltac:(lia)) as Hq.
  assert (Hq0 : 0 <= P * pw / 256) by (apply Z.div_pos; lia).
  set (q := P * pw / 256) in *.
  assert (Hq2 : 2 * q <= P) by nia.
  destruct (Z.eqb_spec q 0) as [Hz|Hz].
  - rewrite (to_word_id (P - 1)) by (unfold is_word; lia).
    destruct (Z.ltb_spec 255 (P - 1)); cbn [fst snd].
    + rewrite (to_word_id (1 + (P - 1 - 255))) by (unfold is_word; lia).
      rewrite !Word_lsb_id by (unfold is_byte; lia). lia.
    + rewrite !Word_lsb_id by (unfold is_byte; lia). lia.
  - rewrite (to_word_id (P - q)) by (unfold is_word; lia).
    destruct (Z.ltb_spec 255 (P - q)); cbn [fst snd].
    + rewrite (to_word_id (q + (P - q - 255))) by (unfold is_word; lia).
      rewrite !Word_lsb_id by (unfold is_byte; lia). lia.
    + rewrite !Word_lsb_id by (unfold is_byte; lia). lia.
Qed.

(** The edge lengths [setPW] leaves on an active slot. *)
Lemma setPW_slot s x i :
  consistent s -> Z.of_nat i < numOsc s ->
  edgLen (setPW s x) !!! i
  = calcSteps (Z.max 1 (Z.min 128 x)) (period_of s i).
Proof.
  intros Hc Hi. pose proof Hc as (Hs & HN & _ & _ & Hb & _).
  assert (Ht : (i < MAX_OSC)%nat) by (unfold MAX_OSC in *; lia).
  destruct (Hb i Ht) as (B0 & B1). unfold is_byte in B0, B1.
  unfold setPW. cbv zeta.
  set (pw := if 128 <? (if x <? 1 then 1 else x) then 128
             else if x <? 1 then 1 else x).
  assert (Hpw : pw = Z.max 1 (Z.min 128 x)).
  { unfold pw. destruct (Z.ltb_spec x 1).
    - change (128 <? 1) with false. cbv iota. lia.
    - destruct (Z.ltb_spec 128 x); lia. }
  clearbody pw.
  destruct (setPW_loop (slots (numOsc (set_pW s pw))) (set_pW s pw))
    as (_ & _ & _ & Hlen).
  - apply NoDup_seq.
  - intros k Hk. apply elem_of_slots in Hk. cbn in Hk. unfold MAX_OSC in *. lia.
  - exact Hs.
  - cbv zeta in Hlen. rewrite (Hlen i).
    destruct (decide _) as [_|Hn]; [|exfalso; apply Hn, elem_of_slots, Hi].
    change (period_of (set_pW s pw) i) with (period_of s i).
    change (pW (set_pW s pw)) with pw.
    rewrite to_word_id by (unfold is_word, period_of; lia).
    rewrite Hpw. reflexivity.
Qed.

(** X16. The pulse width is a duty cycle in 256ths: on an active slot of
    period [P >= 2], [setPW( x )] makes the high edge the 256th part of
    [P] times the clamped width, but at least 1 sample and at least
    [P - 255], and the low edge the rest of [P]. So a larger width never
    gives a shorter high edge, and any width from 128 up gives the even
    split, [P / 2] high. *)
Theorem setPW_duty s x i :
  consistent s -> Z.of_nat i < numOsc s -> 2 <= period_of s i ->
  let P := period_of s i in
  let pw := Z.max 1 (Z.min 128 x) in
  fst (edgLen (setPW s x) !!! i) = Z.max (Z.max 1 (P * pw / 256)) (P - 255) /\
  snd (edgLen (setPW s x) !!! i) = P - fst (edgLen (setPW s x) !!! i) /\
  (forall y, x <= y ->
     fst (edgLen (setPW s x) !!! i) <= fst (edgLen (setPW s y) !!! i)) /\
  (128 <= x -> fst (edgLen (setPW s x) !!! i) = P / 2).
Proof.
  intros Hc Hi HP. cbv zeta.
  pose proof Hc as (Hs & HN & _ & _ & Hb & _).
  assert (Ht : (i < MAX_OSC)%nat) by (unfold MAX_OSC in *; lia).
  destruct (Hb i Ht) as (B0 & B1). unfold is_byte in B0, B1.
  assert (HP' : 2 <= period_of s i <= 510) by (unfold period_of in *; lia).
  assert (Hhigh : forall z,
            fst (edgLen (setPW s z) !!! i)
            = Z.max (Z.max 1 (period_of s i * Z.max 1 (Z.min 128 z) / 256))
                    (period_of s i - 255)).
  { intros z. rewrite setPW_slot by assumption.
    apply calcSteps_high; lia. }
  split; [apply Hhigh|]. split.
  - rewrite setPW_slot by assumption.
    destruct (calcSteps_duty (Z.max 1 (Z.min 128 x)) (period_of s i))
      as (Hsum & _); lia.
  - split.
    + intros y Hxy. rewrite (Hhigh x), (Hhigh y).
      assert (Hm : period_of s i * Z.max 1 (Z.min 128 x) / 256
                   <= period_of s i * Z.max 1 (Z.min 128 y) / 256).
      { apply Z.div_le_mono; [lia|]. apply Z.mul_le_mono_nonneg_l; lia. }
      lia.
    + intros Hx. rewrite (Hhigh x).
      replace (Z.max 1 (Z.min 128 x)) with 128 by lia.
      replace (period_of s i * 128 / 256) with (period_of s i / 2)
        by (Z.div_mod_to_equations; lia).
      Z.div_mod_to_equations. lia.
Qed.

Lemma setPW_duty_witness :
  fst (edgLen (setPW lowestNote 64) !!! 0%nat) = 105 /\
  snd (edgLen (setPW lowestNote 64) !!! 0%nat) = 255.
Proof.
  assert (Hact : Z.of_nat 0 < numOsc lowestNote) by reflexivity.
  assert (HP : 2 <= period_of lowestNote 0) by (vm_compute; discriminate).
  destruct (setPW_duty lowestNote 64 0 lowestNote_consistent Hact HP)
    as (E1 & E2 & _).
  split; [exact E1|]. rewrite E2, E1. reflexivity.
Defined.

End OscProperties.

(** ** The drone switch and the mix in use *)

Module SynthProperties.

Import Synth SynthFacts.

Section Events.

Context {B : Type} `{TwoVoxPanSynth B}.
Variable super_noteOn : B -> B.

Implicit Type s : DroneSynth B.

Lemma start_keeps s : settled s -> settled (start s) /\ vol (start s) = vol s.
Proof.
  intros (Hb & H0 & H1). unfold start, settled.
  destruct (playStatus s) eqn:E; cbn; rewrite ?E;
    (split; [split; [exact Hb|split; [try discriminate|try discriminate]]|reflexivity]);
    auto.
Qed.

Lemma stop_keeps s : settled s -> settled (stop s) /\ vol (stop s) = vol s.
Proof.
  intros (Hb & H0 & H1). unfold stop, settled.
  destruct (playStatus s) eqn:E; cbn; rewrite ?E;
    (split; [split; [exact Hb|split; [try discriminate|try discriminate]]|reflexivity]);
    auto.
Qed.

Lemma dynamics_keeps s :
  settled s -> settled (dynamics s) /\ Z.abs (vol (dynamics s) - vol s) <= 1.
Proof.
  intros (Hb & H0 & H1). unfold is_byte in Hb. unfold dynamics, settled.
  destruct (playStatus s) eqn:E.
  - cbn. rewrite E. split; [auto|lia].
  - destruct (Z.eqb_spec (vol s) 255) as [Hv|Hv]; cbn.
    + split; [|lia]. split; [unfold is_byte; lia|]. split; [discriminate|auto].
    + rewrite E, to_byte_id by (unfold is_byte; lia).
      split; [|lia]. split; [unfold is_byte; lia|]. split; discriminate.
  - cbn. rewrite E. split; [auto|lia].
  - destruct (Z.eqb_spec (vol s) 0) as [Hv|Hv]; cbn.
    + split; [|lia]. split; [unfold is_byte; lia|]. split; [auto|discriminate].
    + rewrite E, to_byte_id by (unfold is_byte; lia).
      split; [|lia]. split; [unfold is_byte; lia|]. split; discriminate.
Qed.

Lemma handle_keeps s e :
  settled s ->
  settled (handle super_noteOn s e) /\
  Z.abs (vol (handle super_noteOn s e) - vol s) <= 1.
Proof.
  intros Hs. destruct e; cbn [handle].
  - destruct (start_keeps s Hs) as (A & ->). split; [exact A|lia].
  - destruct (stop_keeps s Hs) as (A & ->). split; [exact A|lia].
  - unfold toggle. destruct (playStatus s).
    + destruct (start_keeps s Hs) as (A & ->). split; [exact A|lia].
    + destruct (stop_keeps s Hs) as (A & ->). split; [exact A|lia].
    + destruct (stop_keeps s Hs) as (A & ->). split; [exact A|lia].
    + destruct (start_keeps s Hs) as (A & ->). split; [exact A|lia].
  - unfold noteOn. cbv zeta. cbn [playStatus].
    set (s1 := mkSynth (playStatus s) (vol s) (super_noteOn (super s))).
    assert (Hs1 : settled s1) by exact Hs.
    destruct (playStatus s) eqn:E.
    + destruct (start_keeps s1 Hs1) as (A & ->). split; [exact A|cbn; lia].
    + split; [exact Hs1|cbn; lia].
    + split; [exact Hs1|cbn; lia].
    + split; [exact Hs1|cbn; lia].
  - apply dynamics_keeps, Hs.
Qed.

Lemma dynamics_stopped s :
  playStatus s = STOPPED ->
  playStatus (dynamics s) = STOPPED /\ vol (dynamics s) = vol s.
Proof. intros E. unfold dynamics. rewrite E. cbn. auto. Qed.

Lemma dynamicsN_stopped n s :
  playStatus s = STOPPED ->
  playStatus (dynamicsN n s) = STOPPED /\ vol (dynamicsN n s) = vol s.
Proof.
  revert s. induction n as [|n IH]; intros s E; [auto|].
  cbn [dynamicsN]. destruct (dynamics_stopped s E) as (E1 & E2).
  destruct (IH (dynamics s) E1) as (A & C). split; [exact A|congruence].
Qed.

Lemma dynamicsN_add a b s :
  dynamicsN (a + b) s = dynamicsN b (dynamicsN a s).
Proof.
  revert s. induction a as [|a IH]; intros s; [reflexivity|].
  cbn [Nat.add dynamicsN]. apply IH.
Qed.

Lemma drain_from_fade_out s (n : nat) :
  playStatus s = FADE_OUT -> is_byte (vol s) -> vol s + 1 <= Z.of_nat n ->
  playStatus (dynamicsN n s) = STOPPED /\ vol (dynamicsN n s) = 0.
Proof.
  intros E Hb Hn. pose proof Hb as Hb'. unfold is_byte in Hb'.
  replace n with (Z.to_nat (vol s) + S (n - S (Z.to_nat (vol s))))%nat by lia.
  rewrite dynamicsN_add.
  destruct (fade_out_ramp (Z.to_nat (vol s)) s E Hb ltac:(lia)) as (E1 & E2).
  set (x := dynamicsN (Z.to_nat (vol s)) s) in *.
  cbn [dynamicsN].
  destruct (dynamics_fade_out x E1) as [(_ & A & C)|(F & _)];
    [unfold is_byte; lia| |lia].
  destruct (dynamicsN_stopped (n - S (Z.to_nat (vol s))) (dynamics x) A)
    as (A' & C').
  split; [exact A'|]. rewrite C'. exact C.
Qed.

(** After [stop()] the ticks of [dynamics] bring the synth to rest. *)
Lemma stop_drains s (n : nat) :
  settled s -> vol s + 1 <= Z.of_nat n ->
  playStatus (dynamicsN n (stop s)) = STOPPED /\
  vol (dynamicsN n (stop s)) = 0.
Proof.
  intros Hs Hn. destruct (stop_keeps s Hs) as (Hs' & Ev).
  pose proof Hs as (Hb & H0 & _). unfold is_byte in Hb.
  destruct (playStatus s) eqn:E.
  - assert (Es : stop s = s) by (unfold stop; rewrite E; reflexivity).
    rewrite Es. destruct (dynamicsN_stopped n s E) as (A & C).
    split; [exact A|]. rewrite C. auto.
  - apply (drain_from_fade_out (stop s)); [|apply Hs'|rewrite Ev; exact Hn].
    unfold stop. rewrite E. reflexivity.
  - apply (drain_from_fade_out (stop s)); [|apply Hs'|rewrite Ev; exact Hn].
    unfold stop. rewrite E. reflexivity.
  - apply (drain_from_fade_out (stop s)); [|apply Hs'|rewrite Ev; exact Hn].
    unfold stop. rewrite E. reflexivity.
Qed.

(** X12. The play state and the volume stay in agreement through every
    sequence of [start()], [stop()], drone toggles, [noteOn()] and
    [dynamics()] ticks: the volume is a byte, 0 whenever the state is
    [STOPPED] and 255 whenever it is [PLAYING]; and no such call moves
    the volume by more than 1. *)
Theorem fades_stay_settled (es : list event) s :
  settled s ->
  let s' := fold_left (handle super_noteOn) es s in
  settled s' /\
  forall e, Z.abs (vol (handle super_noteOn s' e) - vol s') <= 1.
Proof.
  revert s. induction es as [|e es IH]; intros s Hs; cbv zeta.
  - cbn [fold_left]. split; [exact Hs|]. intros e. apply handle_keeps, Hs.
  - cbn [fold_left]. apply IH. apply handle_keeps, Hs.
Qed.

(** X13. [stop()] always leads to rest: from any state in which play
    state and volume agree, [stop()] followed by one tick of [dynamics]
    more than the volume, and so by 256 ticks at most, leaves the synth
    [STOPPED] with volume 0, where further ticks keep it. *)
Theorem stop_reaches_stopped s (n : nat) :
  settled s -> vol s + 1 <= Z.of_nat n ->
  playStatus (dynamicsN n (stop s)) = STOPPED /\
  vol (dynamicsN n (stop s)) = 0 /\
  playStatus (dynamicsN 256 (stop s)) = STOPPED /\
  forall k, playStatus (dynamicsN (n + k) (stop s)) = STOPPED.
Proof.
  intros Hs Hn. pose proof Hs as (Hb & _). unfold is_byte in Hb.
  destruct (stop_drains s n Hs Hn) as (A & C).
  split; [exact A|]. split; [exact C|]. split.
  - apply (stop_drains s 256 Hs). lia.
  - intros k. apply (stop_drains s (n + k) Hs). lia.
Qed.

End Events.

Lemma fades_stay_settled_witness :
  settled (fold_left (handle (fun b : unit => b))
             [EvNoteOn; EvDynamics; EvDynamics; EvToggle; EvDynamics; EvStart]
             (mkSynth STOPPED 0 tt)).
Proof.
  assert (Hs : settled (mkSynth STOPPED 0 tt)).
  { split; [unfold is_byte; cbn; lia|]. split; [reflexivity|discriminate]. }
  exact (proj1 (fades_stay_settled (fun b : unit => b)
    [EvNoteOn; EvDynamics; EvDynamics; EvToggle; EvDynamics; EvStart]
    (mkSynth STOPPED 0 tt) Hs)).
Defined.

Lemma stop_reaches_stopped_witness :
  playStatus (dynamicsN 41 (stop (mkSynth FADE_IN 40 tt))) = STOPPED /\
  vol (dynamicsN 41 (stop (mkSynth FADE_IN 40 tt))) = 0.
Proof.
  assert (Hs : settled (mkSynth FADE_IN 40 tt)).
  { split; [unfold is_byte; cbn; lia|]. split; discriminate. }
  destruct (stop_reaches_stopped (mkSynth FADE_IN 40 tt) 41 Hs ltac:(cbn; lia))
    as (A & C & _).
  split; [exact A|exact C].
Defined.

(** The mix of two samples lies between them. *)
Lemma mix_between chan lead :
  is_char chan -> is_char lead ->
  Z.min chan lead <= mix chan lead <= Z.max chan lead.
Proof.
  intros Hc Hl. destruct (mix_exact chan lead Hc Hl) as (_ & -> & _).
  unfold is_char in *. Z.div_mod_to_equations. lia.
Qed.

(** X14. The mix never adds level: each sample [output] hands on lies
    between the drone sample of its channel and the lead sample of the
    same tick, so it is never louder than the louder of the two. The
    buffers keep their lengths. *)
Theorem output_mix_between audioBufSz bufL bufR leadbuf (i : nat) :
  (i < audioBufSz)%nat ->
  length bufL = audioBufSz -> length bufR = audioBufSz ->
  Forall is_char bufL -> Forall is_char bufR -> is_char (leadbuf !!! i) ->
  let out := output audioBufSz (bufL, bufR) leadbuf in
  length (fst out) = audioBufSz /\ length (snd out) = audioBufSz /\
  Z.min (bufL !!! i) (leadbuf !!! i) <= fst out !!! i
    <= Z.max (bufL !!! i) (leadbuf !!! i) /\
  Z.min (bufR !!! i) (leadbuf !!! i) <= snd out !!! i
    <= Z.max (bufR !!! i) (leadbuf !!! i).
Proof.
  intros Hi HL HR HcL HcR Hlead. cbv zeta. unfold output.
  destruct (mix_loop leadbuf audioBufSz bufL bufR) as (EL & ER & Hout).
  cbv zeta in *. rewrite EL, ER. split; [exact HL|]. split; [exact HR|].
  destruct (Hout i) as (E1 & E2). rewrite E1, E2.
  destruct (decide _); [|lia]. destruct (decide _); [|lia].
  assert (HiL : is_char (bufL !!! i)).
  { apply (Forall_lookup_total_1 _ _ i) in HcL; [exact HcL|lia]. }
  assert (HiR : is_char (bufR !!! i)).
  { apply (Forall_lookup_total_1 _ _ i) in HcR; [exact HcR|lia]. }
  split; apply mix_between; assumption.
Qed.

Lemma output_mix_between_witness :
  Z.min (-128) 40 <= fst (output 2 ([100; -128], [7; 127]) [5; 40]) !!! 1%nat
    <= Z.max (-128) 40.
Proof.
  assert (HL : Forall is_char [100; -128])
    by (repeat constructor; unfold is_char; lia).
  assert (HR : Forall is_char [7; 127])
    by (repeat constructor; unfold is_char; lia).
  assert (Hl : is_char ([5; 40] !!! 1%nat)) by (unfold is_char; cbn; lia).
  destruct (output_mix_between 2 [100; -128] [7; 127] [5; 40] 1
              ltac:(lia) eq_refl eq_refl HL HR Hl)
    as (_ & _ & E & _).
  exact E.
Defined.

End SynthProperties.
